(** * LinuxContigPhysPages: pinned, cache-friendly physical page allocation

    A shallow embedding of [allocate_phys_mem] and [free_phys_mem] of
    LinuxContigPhysPages.c.  Unsigned 32-bit quantities are integers with
    the wrap-around written out; the operating system (sysconf, the
    allocator, mlock/munlock, the pagemap stream) is an explicit
    environment of answers, and every library call the code makes is
    recorded in a trace of events. *)

From Stdlib Require Import ZArith Lia List Bool.
From stdpp Require Import base list gmap.
Import ListNotations.
Local Open Scope Z_scope.

(** ** Machine arithmetic *)

(** Reduction of a value to [uint32_t]. *)
Definition wrap32 (x : Z) : Z := x mod 2 ^ 32.

(** Conversion of a [uint32_t] value to [int]. *)
Definition to_int (x : Z) : Z := if x <? 2 ^ 31 then x else x - 2 ^ 32.

(** [~x] on [uint32_t]. *)
Definition not32 (x : Z) : Z := wrap32 (Z.lnot x).

(** ** Compile-time configuration (lines 36-45) *)

Definition CACHE_GRANULARITY : Z := 1024 * 1024.
Definition BLOCK_ALIGN : Z := 2 * 1024 * 1024.
Definition MAX_ATTEMPT : Z := 1024.

(** ** Size normalisation and attempt budget (lines 80-109) *)

(** Initialiser of the static [cacheFriendlyFactor] (lines 80-81); the
    comparison and the subtraction are unsigned. *)
Definition cacheFriendlyFactor_init (pageSize : Z) : Z :=
  if CACHE_GRANULARITY <? wrap32 (2 * pageSize) then 1
  else wrap32 (CACHE_GRANULARITY / pageSize - 1).

(** Number of low bits set in [cacheFriendlyFactor], by the exponent [k] of
    a page size [2^k] (used to state facts about the mask). *)
Definition mask_bits (k : Z) : Z :=
  if k <=? 19 then 20 - k else if k <=? 30 then 1 else 32.

(** Lines 91-93: round the request up to the page size. *)
Definition round_to_page (pageSize allocSize : Z) : Z :=
  if negb (Z.land allocSize (wrap32 (pageSize - 1)) =? 0)
  then wrap32 (Z.land allocSize (not32 (wrap32 (pageSize - 1))) + pageSize)
  else allocSize.

(** Lines 91-101: the value of [allocSize] used by the rest of the call. *)
Definition normalize_allocSize (pageSize allocSize : Z) : Z :=
  let a1 := round_to_page pageSize allocSize in
  let a2 := if a1 <? CACHE_GRANULARITY then CACHE_GRANULARITY else a1 in
  if a2 <? pageSize then pageSize else a2.

(** Lines 104-109: [numTrials], for the normalised [allocSize].  The
    quotient and the product are unsigned 32-bit, the result is an [int]. *)
Definition attempt_quota (pageSize availPhysPages allocSize : Z) : Z :=
  to_int (wrap32 (availPhysPages / (allocSize / pageSize) * 3) / 4).

Definition numTrials_of (pageSize availPhysPages allocSize : Z) : Z :=
  let n := attempt_quota pageSize availPhysPages allocSize in
  if n >? MAX_ATTEMPT then MAX_ATTEMPT else n.

(** The request rounded up to the next multiple of the page size, as an
    unbounded integer (the specification's reading, used for comparison). *)
Definition page_ceiling (pageSize s : Z) : Z :=
  (s + pageSize - 1) / pageSize * pageSize.

(** ** Contiguity scoring (lines 152-174) *)

Inductive Transition : Type :=
| Contiguous        (* curr_page == prev_page+1 *)
| CompatibleGap     (* gap, but (cacheFriendlyFactor & check) == 0 *)
| Incompatible.     (* gap inside a cache-granularity block: break *)

(** Lines 156-163 for one pair of frame numbers. *)
Definition classify (cacheFriendlyFactor prev_page curr_page : Z) : Transition :=
  if negb (curr_page =? wrap32 (prev_page + 1)) then
    let check := Z.lor (wrap32 (prev_page + 1)) curr_page in
    if negb (Z.land cacheFriendlyFactor check =? 0) then Incompatible
    else CompatibleGap
  else Contiguous.

(** How the page loop of one trial is left. *)
Inductive Walk : Type :=
| WalkEnd (page pageGaps : Z)   (* loop left normally or by [break] *)
| WalkAbort.                    (* [goto error_exit]: first frame is 0 *)

(** The page loop (lines 152-174).  [frames p] is the 32-bit value found in
    [pageFrame] after the read for page [p]; [n] is the number of iterations
    left, [allocPages - page].  The second component is the list of pages
    read. *)
Fixpoint walk_pages (cff : Z) (frames : Z -> Z) (n : nat)
    (page prev_page pageGaps : Z) : Walk * list Z :=
  match n with
  | O => (WalkEnd page pageGaps, [])
  | S n' =>
    let v := wrap32 (frames page) in
    if negb (page =? 0) then
      match classify cff prev_page v with
      | Incompatible => (WalkEnd page pageGaps, [page])
      | CompatibleGap =>
        let r := walk_pages cff frames n' (page + 1) v (pageGaps + 1) in
        (r.1, page :: r.2)
      | Contiguous =>
        let r := walk_pages cff frames n' (page + 1) v pageGaps in
        (r.1, page :: r.2)
      end
    else if v =? 0 then (WalkAbort, [page])
    else
      let r := walk_pages cff frames n' (page + 1) v pageGaps in
      (r.1, page :: r.2)
  end.

(** ** The operating system as seen by the code *)

(** Every answer the library gives during one call.  Answers that belong
    to a trial are indexed by the trial. *)
Record Env : Type := {
  (** [sysconf(_SC_PAGESIZE)] and [sysconf(_SC_AVPHYS_PAGES)]. *)
  sysconf_PAGESIZE : Z;
  sysconf_AVPHYS_PAGES : Z;
  (** The contents of the table returned by [malloc] (line 84), which
      [malloc] does not initialise. *)
  malloc_contents : list Z;
  (** [fopen] of /proc/self/pagemap: [true] when a stream is returned. *)
  fopen_pagemap : bool;
  (** [posix_memalign(&blockArray[trial], ...)], whose return value the code
      ignores.  [Some p]: the call stored [p] in the slot (a fresh block, or
      null for a library that nulls the slot on failure).  [None]: the call
      failed and left the slot as it was; POSIX allows a failing call either
      behaviour, and glibc leaves the slot unmodified. *)
  posix_memalign : Z -> option Z;
  (** [mlock] of the trial's block: [true] when it returns nonzero. *)
  mlock : Z -> bool;
  (** The 32-bit word found at the start of [pageFrame] after the [fread]
      for a page of a trial. *)
  fread_pageFrame : Z -> Z -> Z;
  (** [fclose] of the stream: [true] when it returns nonzero. *)
  fclose_pagemap : bool;
  (** [munlock(addr, len)] as called by [free_phys_mem]: the returned int. *)
  munlock : Z -> Z -> Z
}.

(** The library calls with an effect, in the order the code makes them. *)
Inductive Event : Type :=
| EvFopen (opened : bool)
| EvMemalign (trial : Z) (stored : option Z)
| EvMlock (addr len : Z) (failed : bool)
| EvFseek (offset : Z)
| EvFread (trial page : Z)
| EvFclose (failed : bool)
| EvMunlock (addr len : Z)
| EvFree (ptr : Z)
| EvExit (status : Z).

(** ** State *)

(** The function's static variables (lines 61-63). *)
Record Statics : Type := {
  pageSize : Z;
  cacheFriendlyFactor : Z;
  blockArray : list Z
}.

(** Before the first call: zero-initialised statics. *)
Definition fresh_statics : Statics :=
  {| pageSize := 0; cacheFriendlyFactor := 0; blockArray := [] |}.

(** [blockArray[i]] and [blockArray[i] = v] on the table. *)
Definition slot (tbl : list Z) (i : Z) : Z := default 0 (tbl !! Z.to_nat i).
Definition store (tbl : list Z) (i v : Z) : list Z := <[Z.to_nat i := v]> tbl.

(** The variables the search loop changes: the table and the automatic
    variables of lines 67-75. *)
Record Search : Type := {
  table : list Z;
  trial : Z;
  physBlock : Z;
  bestBlock : Z;
  bestGapCount : Z
}.

Definition next_trial (s : Search) : Search :=
  {| table := table s; trial := trial s + 1; physBlock := physBlock s;
     bestBlock := bestBlock s; bestGapCount := bestGapCount s |}.

Definition with_table (s : Search) (tbl : list Z) : Search :=
  {| table := tbl; trial := trial s; physBlock := physBlock s;
     bestBlock := bestBlock s; bestGapCount := bestGapCount s |}.

(** Lines 178-180. *)
Definition select (s : Search) (pageGaps : Z) : Search :=
  {| table := table s; trial := trial s; physBlock := slot (table s) (trial s);
     bestBlock := trial s; bestGapCount := pageGaps |}.

(** How one iteration of the trial loop ends. *)
Inductive Control : Type :=
| Next        (* fall through to [++trial] *)
| Break       (* [break] *)
| ErrorExit.  (* [goto error_exit] *)

(** Lines 198-200: the index the cleanup loop starts from. *)
Definition last_trial (numTrials : Z) (s : Search) : Z :=
  if trial s =? numTrials then trial s - 1 else trial s.

(** ** The search loop, cleanup and the two entry points *)

Section Call.
Variable os : Env.
(** Values fixed before the loop: the statics and the normalised size. *)
Variables (pgSize cff allocSize : Z).

Definition allocPages : Z := to_int (allocSize / pgSize).

(** The body of the trial loop (lines 121-186), posix_memalign variant. *)
Definition trial_body (s : Search) : Control * Search * list Event :=
  let t := trial s in
  let r := posix_memalign os t in
  let s1 := match r with
            | Some p => with_table s (store (table s) t p)
            | None => s
            end in
  let b := slot (table s1) t in
  if b =? 0 then (Break, s1, [EvMemalign t r])
  else if mlock os t then
    (Break, s1, [EvMemalign t r; EvMlock b allocSize true])
  else
    let pagemap_offset := wrap32 (b / pgSize * 8) in
    let w := walk_pages cff (fread_pageFrame os t)
               (Z.to_nat allocPages) 0 0 0 in
    let ev := [EvMemalign t r; EvMlock b allocSize false;
               EvFseek pagemap_offset] ++ map (EvFread t) w.2 in
    match w.1 with
    | WalkAbort => (ErrorExit, s1, ev)
    | WalkEnd page pageGaps =>
      if page =? allocPages then
        if (bestBlock s1 =? -1) || (pageGaps <? bestGapCount s1) then
          if pageGaps =? 0 then (Break, select s1 pageGaps, ev)
          else (Next, select s1 pageGaps, ev)
        else (Next, s1, ev)
      else (Next, s1, ev)
    end.

(** The trial loop (line 119); [n] is [numTrials - trial]. *)
Fixpoint trial_loop (n : nat) (s : Search) : Search * list Event :=
  match n with
  | O => (s, [])
  | S n' =>
    match trial_body s with
    | (Next, s', ev) =>
      let r := trial_loop n' (next_trial s') in (r.1, ev ++ r.2)
    | (_, s', ev) => (s', ev)
    end
  end.

(** The cleanup loop (lines 204-215); [n] is [unwind + 1]. *)
Fixpoint cleanup (tbl : list Z) (best : Z) (n : nat) (unwind : Z)
    : list Event :=
  match n with
  | O => []
  | S n' =>
    (if negb (unwind =? best) && negb (slot tbl unwind =? 0)
     then [EvMunlock (slot tbl unwind) allocSize; EvFree (slot tbl unwind)]
     else [])
    ++ cleanup tbl best n' (unwind - 1)
  end.
End Call.

(** Lines 77-85: lazy initialisation of the statics. *)
Definition lazy_init (os : Env) (st : Statics) : Statics :=
  if pageSize st =? 0 then
    let ps := wrap32 (sysconf_PAGESIZE os) in
    {| pageSize := ps;
       cacheFriendlyFactor := cacheFriendlyFactor_init ps;
       blockArray := malloc_contents os |}
  else st.

(** The normalised [allocSize] and [numTrials] of a call. *)
Definition call_allocSize (os : Env) (st : Statics) (allocSize : Z) : Z :=
  normalize_allocSize (pageSize (lazy_init os st)) allocSize.

Definition call_numTrials (os : Env) (st : Statics) (allocSize : Z) : Z :=
  numTrials_of (pageSize (lazy_init os st))
    (wrap32 (sysconf_AVPHYS_PAGES os)) (call_allocSize os st allocSize).

(** Lines 71-187: everything up to the label [error_exit]. *)
Definition search (os : Env) (st : Statics) (allocSize : Z)
    : Search * list Event :=
  let st1 := lazy_init os st in
  let s0 := {| table := store (blockArray st1) 0 0; trial := 0;
               physBlock := 0; bestBlock := -1; bestGapCount := -1 |} in
  if fopen_pagemap os then
    let r := trial_loop os (pageSize st1) (cacheFriendlyFactor st1)
               (call_allocSize os st allocSize)
               (Z.to_nat (call_numTrials os st allocSize)) s0 in
    (r.1, EvFopen true :: r.2)
  else (s0, [EvFopen false]).

(** How a call ends. *)
Inductive Outcome : Type :=
| Return (physBlock : Z)
| ProcessExit (status : Z).

Record Run : Type := {
  outcome : Outcome;
  statics : Statics;
  trace : list Event
}.

(** [allocate_phys_mem] (lines 59-234), with the compile-time switches as
    set in the source: posix_memalign allocation, no failover. *)
Definition allocate_phys_mem (os : Env) (st : Statics) (allocSize : Z) : Run :=
  let st1 := lazy_init os st in
  let r := search os st allocSize in
  let s := r.1 in
  let st2 := {| pageSize := pageSize st1;
                cacheFriendlyFactor := cacheFriendlyFactor st1;
                blockArray := table s |} in
  if fopen_pagemap os && fclose_pagemap os then
    {| outcome := ProcessExit (-1); statics := st2;
       trace := r.2 ++ [EvFclose true; EvExit (-1)] |}
  else
    let unwind := last_trial (call_numTrials os st allocSize) s in
    {| outcome := Return (physBlock s); statics := st2;
       trace := r.2
                ++ (if fopen_pagemap os then [EvFclose false] else [])
                ++ cleanup (call_allocSize os st allocSize) (table s)
                     (bestBlock s) (Z.to_nat (unwind + 1)) unwind |}.

(** [free_phys_mem] (lines 240-251): the returned [err] and the calls made. *)
Definition free_phys_mem (os : Env) (physBlock allocSize : Z)
    : Z * list Event :=
  let err := munlock os physBlock allocSize in
  (err, [EvMunlock physBlock allocSize; EvFree physBlock]).

(** ** What each trial does, read off the environment

    Inside one call a slot of the table is touched by its own trial only,
    so the fate of trial [t] is a function of the environment and of the
    table as it was when the loop was entered. *)

Inductive Verdict : Type :=
| AllocFailed             (* [blockArray[trial] == 0] after posix_memalign *)
| PinFailed               (* mlock returned nonzero *)
| Aborted                 (* first frame number read was 0 *)
| Disqualified            (* the page loop was left before [allocPages] *)
| Qualified (pageGaps : Z).

(** Verdicts after which the loop is left. *)
Definition stops (v : Verdict) : bool :=
  match v with
  | Disqualified => false
  | Qualified g => g =? 0
  | _ => true
  end.

Section Trials.
Variable os : Env.
Variables (pgSize cff allocSize : Z).
(** The table when the loop is entered. *)
Variable tbl0 : list Z.

(** [blockArray[t]] after trial [t]'s posix_memalign. *)
Definition block_of (t : Z) : Z :=
  match posix_memalign os t with
  | Some p => p
  | None => slot tbl0 t
  end.

Definition walk_of (t : Z) : Walk * list Z :=
  walk_pages cff (fread_pageFrame os t)
    (Z.to_nat (allocPages pgSize allocSize)) 0 0 0.

Definition verdict (t : Z) : Verdict :=
  if block_of t =? 0 then AllocFailed
  else if mlock os t then PinFailed
  else match (walk_of t).1 with
       | WalkAbort => Aborted
       | WalkEnd page pageGaps =>
         if page =? allocPages pgSize allocSize then Qualified pageGaps
         else Disqualified
       end.

(** Trial [t] is entered: it is within the budget and no earlier trial
    left the loop. *)
Definition attempted (numTrials t : Z) : bool :=
  (0 <=? t) && (t <? numTrials)
  && forallb (fun i => negb (stops (verdict i))) (seqZ 0 t).

(** The library calls of trial [t]. *)
Definition trial_events (t : Z) : list Event :=
  let b := block_of t in
  EvMemalign t (posix_memalign os t) ::
  (if b =? 0 then []
   else EvMlock b allocSize (mlock os t) ::
        (if mlock os t then []
         else EvFseek (wrap32 (b / pgSize * 8))
              :: map (EvFread t) (walk_of t).2)).

(** [b] with [g] gaps is the earliest trial of least gap count among the
    qualifying trials below [n]. *)
Definition is_best (n b g : Z) : Prop :=
  0 <= b < n /\ verdict b = Qualified g /\
  forall i g', 0 <= i < n -> verdict i = Qualified g' ->
    g <= g' /\ (g' = g -> b <= i).

Definition no_candidate (n : Z) : Prop :=
  forall i g, 0 <= i < n -> verdict i <> Qualified g.

(** The table after the posix_memalign of the trial [s] is at. *)
Definition after_memalign (s : Search) : Search :=
  match posix_memalign os (trial s) with
  | Some p => with_table s (store (table s) (trial s) p)
  | None => s
  end.

(** What [physBlock], [bestBlock] and [bestGapCount] hold once the first
    [n] trials are done. *)
Definition candidate_state (n : Z) (s : Search) : Prop :=
  (bestBlock s = -1 /\ physBlock s = 0 /\ no_candidate n) \/
  (is_best n (bestBlock s) (bestGapCount s) /\
   physBlock s = block_of (bestBlock s)).

(** Invariant of the trial loop, at the loop head with [trial = k]. *)
Definition running (k : Z) (s : Search) : Prop :=
  trial s = k /\ 0 <= k /\ length (table s) = length tbl0 /\
  (forall i, k <= i -> slot (table s) i = slot tbl0 i) /\
  (forall i, 0 <= i < k -> slot (table s) i = block_of i) /\
  (forall i, 0 <= i < k -> stops (verdict i) = false) /\
  candidate_state k s /\
  (bestBlock s <> -1 -> 0 < bestGapCount s).

(** The state at the label [error_exit]. *)
Definition finished (numTrials : Z) (s : Search) : Prop :=
  let L := last_trial numTrials s + 1 in
  (trial s = numTrials \/
   (0 <= trial s < numTrials /\ stops (verdict (trial s)) = true)) /\
  (forall i, 0 <= i < trial s -> stops (verdict i) = false) /\
  length (table s) = length tbl0 /\
  (forall i, 0 <= i < L -> slot (table s) i = block_of i) /\
  candidate_state L s.
End Trials.

(** The table on entry to the trial loop of a call (line 88 done). *)
Definition entry_table (os : Env) (st : Statics) : list Z :=
  store (blockArray (lazy_init os st)) 0 0.

(** Number of compatible gaps among the transitions into pages [1..n]. *)
Fixpoint count_gaps (cff : Z) (f : Z -> Z) (n : nat) : Z :=
  match n with
  | O => 0
  | S n' =>
    count_gaps cff f n'
    + match classify cff (f (Z.of_nat n')) (f (Z.of_nat n' + 1)) with
      | CompatibleGap => 1
      | _ => 0
      end
  end.

(** The trials of one call: the definitions above at the call's own page
    size, mask, normalised size, budget and entry table.  No trial is
    entered when the pagemap stream could not be opened. *)
Definition call_block (os : Env) (st : Statics) (t : Z) : Z :=
  block_of os (entry_table os st) t.

Definition call_verdict (os : Env) (st : Statics) (allocSize t : Z) : Verdict :=
  verdict os (pageSize (lazy_init os st))
    (cacheFriendlyFactor (lazy_init os st))
    (call_allocSize os st allocSize) (entry_table os st) t.

Definition call_attempted (os : Env) (st : Statics) (allocSize t : Z) : bool :=
  fopen_pagemap os
  && attempted os (pageSize (lazy_init os st))
       (cacheFriendlyFactor (lazy_init os st))
       (call_allocSize os st allocSize) (entry_table os st)
       (call_numTrials os st allocSize) t.

Definition call_events (os : Env) (st : Statics) (allocSize t : Z)
    : list Event :=
  trial_events os (pageSize (lazy_init os st))
    (cacheFriendlyFactor (lazy_init os st))
    (call_allocSize os st allocSize) (entry_table os st) t.

(** The table a call works on holds [MAX_ATTEMPT] slots (line 84). *)
Definition table_ok (os : Env) (st : Statics) : Prop :=
  length (blockArray (lazy_init os st)) = Z.to_nat MAX_ATTEMPT.

(** The trials for which posix_memalign was called, in order. *)
Definition trials_issued (tr : list Event) : list Z :=
  flat_map (fun e => match e with EvMemalign t _ => [t] | _ => [] end) tr.

(** The munlock/free pair of the cleanup loop for one block. *)
Definition release (p len : Z) : list Event := [EvMunlock p len; EvFree p].

(** ** The allocator's and the pinning calls' contract

    What the calls of a trace do to the process: the blocks handed out and
    not yet freed, and the blocks pinned.  [free(0)] does nothing; freeing
    a pointer that is not a live block is undefined behaviour ([None]). *)
Record Heap : Type := { live : gset Z; pinned : gset Z }.

Definition heap_event (h : Heap) (e : Event) : option Heap :=
  match e with
  | EvMemalign _ (Some p) =>
    if p =? 0 then Some h
    else Some {| live := {[p]} ∪ live h; pinned := pinned h |}
  | EvMlock p _ false =>
    Some {| live := live h; pinned := {[p]} ∪ pinned h |}
  | EvMunlock p _ =>
    Some {| live := live h; pinned := pinned h ∖ {[p]} |}
  | EvFree p =>
    if p =? 0 then Some h
    else if decide (p ∈ live h)
         then Some {| live := live h ∖ {[p]}; pinned := pinned h |}
         else None
  | _ => Some h
  end.

Fixpoint heap_run (h : Heap) (tr : list Event) : option Heap :=
  match tr with
  | [] => Some h
  | e :: tr' =>
    match heap_event h e with
    | Some h' => heap_run h' tr'
    | None => None
    end
  end.

Definition empty_heap : Heap := {| live := ∅; pinned := ∅ |}.


(** Events of the teardown that follows the label [error_exit]. *)
Definition is_teardown (e : Event) : bool :=
  match e with
  | EvFclose _ | EvMunlock _ _ | EvFree _ | EvExit _ => true
  | _ => false
  end.

(** Calls into the allocator and the pinning primitive. *)
Definition is_alloc_or_pin (e : Event) : bool :=
  match e with
  | EvMemalign _ _ | EvMlock _ _ _ => true
  | _ => false
  end.


(** ** Concrete environments *)

(** 4 KiB pages, room for three trials of 1 MiB.  Trial 0 maps with one
    gap on a 256-page boundary, trial 1 reads frame number 0 first. *)
Definition env_abort : Env :=
  {| sysconf_PAGESIZE := 4096; sysconf_AVPHYS_PAGES := 1024;
     malloc_contents := repeat 0 1024%nat;
     fopen_pagemap := true;
     posix_memalign := fun t => Some (2097152 * (t + 1));
     mlock := fun _ => false;
     fread_pageFrame := fun t p =>
       if t =? 0 then (if p =? 0 then 255 else 511 + p) else 0;
     fclose_pagemap := false;
     munlock := fun _ _ => 0 |}.

(** As above, but trial 1 is perfectly contiguous and trial 2 as trial 0. *)
Definition env_perfect : Env :=
  {| sysconf_PAGESIZE := 4096; sysconf_AVPHYS_PAGES := 1024;
     malloc_contents := repeat 0 1024%nat;
     fopen_pagemap := true;
     posix_memalign := fun t => Some (2097152 * (t + 1));
     mlock := fun _ => false;
     fread_pageFrame := fun t p =>
       if t =? 1 then 1024 + p else (if p =? 0 then 255 else 511 + p);
     fclose_pagemap := false;
     munlock := fun _ _ => 0 |}.

(** Too little free memory for a single trial. *)
Definition env_no_budget : Env :=
  {| sysconf_PAGESIZE := 4096; sysconf_AVPHYS_PAGES := 100;
     malloc_contents := repeat 0 1024%nat;
     fopen_pagemap := true;
     posix_memalign := fun t => Some (2097152 * (t + 1));
     mlock := fun _ => false;
     fread_pageFrame := fun _ p => 1 + p;
     fclose_pagemap := false;
     munlock := fun _ _ => 0 |}.

(** A first call whose three trials are all disqualified at page 1. *)
Definition env_first_call : Env :=
  {| sysconf_PAGESIZE := 4096; sysconf_AVPHYS_PAGES := 1024;
     malloc_contents := repeat 0 1024%nat;
     fopen_pagemap := true;
     posix_memalign := fun t => Some (2097152 * (t + 1));
     mlock := fun _ => false;
     fread_pageFrame := fun _ p => 2 * p + 1;
     fclose_pagemap := false;
     munlock := fun _ _ => 0 |}.

(** A later call in which the allocator is exhausted at trial 1: the call
    fails and leaves [blockArray[1]] unmodified; mlock then fails too. *)
Definition env_second_call : Env :=
  {| sysconf_PAGESIZE := 4096; sysconf_AVPHYS_PAGES := 1024;
     malloc_contents := [];
     fopen_pagemap := true;
     posix_memalign := fun t => if t =? 0 then Some 2097152 else None;
     mlock := fun t => negb (t =? 0);
     fread_pageFrame := fun _ p => 2 * p + 1;
     fclose_pagemap := false;
     munlock := fun _ _ => 0 |}.


(** Trial 0 maps with one gap; the mlock of trial 1 fails. *)
Definition env_pin_fails : Env :=
  {| sysconf_PAGESIZE := 4096; sysconf_AVPHYS_PAGES := 1024;
     malloc_contents := repeat 0 1024%nat;
     fopen_pagemap := true;
     posix_memalign := fun t => Some (2097152 * (t + 1));
     mlock := fun t => t =? 1;
     fread_pageFrame := fun _ p => if p =? 0 then 255 else 511 + p;
     fclose_pagemap := false;
     munlock := fun _ _ => 0 |}.


(** A block at a 64-bit user-space address, 4 KiB pages. *)
Definition env_high_address : Env :=
  {| sysconf_PAGESIZE := 4096; sysconf_AVPHYS_PAGES := 1024;
     malloc_contents := repeat 0 1024%nat;
     fopen_pagemap := true;
     posix_memalign := fun t => Some (139637976727552 + 2097152 * t);
     mlock := fun _ => false;
     fread_pageFrame := fun _ p => 4096 + p;
     fclose_pagemap := false;
     munlock := fun _ _ => 0 |}.

(** What one turn of the cleanup loop does for trial [i], given the block
    each trial holds. *)
Definition release_unless (len best : Z) (block : Z -> Z) (i : Z)
    : list Event :=
  if (i =? best) || (block i =? 0) then [] else release (block i) len.

(** ** The stream calls of a trace *)

Definition is_fopen (e : Event) : bool :=
  match e with EvFopen _ => true | _ => false end.

Definition is_fclose (e : Event) : bool :=
  match e with EvFclose _ => true | _ => false end.

(** ** The driver (lines 257-273) *)







(** * Properties *)

(** ** Machine arithmetic *)

Lemma wrap32_range (x : Z) : 0 <= wrap32 x < 2 ^ 32.
Proof. unfold wrap32. apply Z.mod_pos_bound. lia. Qed.

Lemma wrap32_small (x : Z) : 0 <= x < 2 ^ 32 -> wrap32 x = x.
Proof. intros H. unfold wrap32. apply Z.mod_small. exact H. Qed.

Lemma pow2_range (k : Z) : 0 <= k < 32 -> 0 < 2 ^ k < 2 ^ 32.
Proof.
  intros H. split; [apply Z.pow_pos_nonneg; lia|].
  apply Z.pow_lt_mono_r; lia.
Qed.

Lemma pow2_divides_2_32 (k : Z) : 0 <= k <= 32 -> (2 ^ k | 2 ^ 32).
Proof.
  intros H. exists (2 ^ (32 - k)).
  rewrite <- Z.pow_add_r by lia. f_equal. lia.
Qed.

Lemma wrap32_mod_pow2 (k x : Z) :
  0 <= k <= 32 -> wrap32 x mod 2 ^ k = x mod 2 ^ k.
Proof.
  intros H. unfold wrap32. apply Z.mod_mod_divide.
  apply pow2_divides_2_32; exact H.
Qed.

(** The page mask [pageSize - 1] and its complement, for a power of two. *)
Lemma land_page_mask (k s : Z) :
  0 <= k < 32 -> Z.land s (wrap32 (2 ^ k - 1)) = s mod 2 ^ k.
Proof.
  intros H. pose proof (pow2_range k H).
  rewrite wrap32_small by lia.
  replace (2 ^ k - 1) with (Z.ones k) by (rewrite Z.ones_equiv; lia).
  apply Z.land_ones. lia.
Qed.

Lemma land_not_page_mask (k s : Z) :
  0 <= k < 32 -> 0 <= s < 2 ^ 32 ->
  Z.land s (not32 (wrap32 (2 ^ k - 1))) = s / 2 ^ k * 2 ^ k.
Proof.
  intros H Hs. pose proof (pow2_range k H).
  rewrite wrap32_small by lia.
  replace (2 ^ k - 1) with (Z.ones k) by (rewrite Z.ones_equiv; lia).
  unfold not32, wrap32.
  rewrite <- (Z.land_ones _ 32) by lia.
  rewrite (Z.land_comm (Z.lnot _)), Z.land_assoc.
  rewrite (Z.land_ones s 32), (Z.mod_small s) by lia.
  rewrite <- Z.ldiff_land, Z.ldiff_ones_r by lia.
  rewrite Z.shiftl_mul_pow2, Z.shiftr_div_pow2 by lia. reflexivity.
Qed.

(** ** Size normalisation *)

Lemma round_to_page_pow2 (k s : Z) :
  0 <= k < 32 -> 0 <= s < 2 ^ 32 ->
  round_to_page (2 ^ k) s =
    if s mod 2 ^ k =? 0 then s else wrap32 (s / 2 ^ k * 2 ^ k + 2 ^ k).
Proof.
  intros H Hs. unfold round_to_page.
  rewrite land_page_mask, land_not_page_mask by assumption.
  destruct (s mod 2 ^ k =? 0); reflexivity.
Qed.

Lemma round_to_page_multiple (k s : Z) :
  0 <= k < 32 -> 0 <= s < 2 ^ 32 ->
  0 <= round_to_page (2 ^ k) s < 2 ^ 32 /\
  round_to_page (2 ^ k) s mod 2 ^ k = 0.
Proof.
  intros H Hs. rewrite round_to_page_pow2 by assumption.
  destruct (Z.eqb_spec (s mod 2 ^ k) 0) as [E|E]; [split; [lia|exact E]|].
  split; [apply wrap32_range|].
  rewrite wrap32_mod_pow2 by lia.
  replace (s / 2 ^ k * 2 ^ k + 2 ^ k) with ((s / 2 ^ k + 1) * 2 ^ k) by ring.
  apply Z.mod_mul.
  pose proof (pow2_range k H). lia.
Qed.

(** Without wrap-around the rounding is the mathematical one. *)
Lemma round_to_page_ceiling (k s : Z) :
  0 <= k < 32 -> 0 <= s <= 2 ^ 32 - 2 ^ k ->
  round_to_page (2 ^ k) s = page_ceiling (2 ^ k) s.
Proof.
  intros H Hs. pose proof (pow2_range k H) as Hp.
  rewrite round_to_page_pow2 by lia. unfold page_ceiling.
  pose proof (Z.div_mod s (2 ^ k) ltac:(lia)) as Hdm.
  pose proof (Z.mod_pos_bound s (2 ^ k) ltac:(lia)) as Hm.
  destruct (Z.eqb_spec (s mod 2 ^ k) 0) as [E|E].
  - replace (s + 2 ^ k - 1) with (s / 2 ^ k * 2 ^ k + (2 ^ k - 1)) by lia.
    rewrite Z.div_add_l by lia.
    rewrite (Z.div_small (2 ^ k - 1)) by lia. lia.
  - replace (s + 2 ^ k - 1)
      with ((s / 2 ^ k + 1) * 2 ^ k + (s mod 2 ^ k - 1)) by lia.
    rewrite Z.div_add_l by lia.
    rewrite (Z.div_small (s mod 2 ^ k - 1)) by lia.
    rewrite wrap32_small; [lia|].
    assert (s / 2 ^ k * 2 ^ k + 2 ^ k <= s + 2 ^ k - 1) by lia.
    split; [|lia].
    assert (0 <= s / 2 ^ k) by (apply Z.div_pos; lia). nia.
Qed.

(** The normalised size is a positive multiple of the page size, at least
    the cache granularity, and fits 32 bits: for every 32-bit request. *)
Lemma normalize_multiple (k s : Z) :
  0 <= k < 32 -> 0 <= s < 2 ^ 32 ->
  let n := normalize_allocSize (2 ^ k) s in
  0 < n < 2 ^ 32 /\ n mod 2 ^ k = 0 /\ CACHE_GRANULARITY <= n /\ 2 ^ k <= n.
Proof.
  intros H Hs n. subst n. unfold normalize_allocSize.
  destruct (round_to_page_multiple k s H Hs) as [Hr Hm].
  pose proof (pow2_range k H) as Hp.
  set (a1 := round_to_page (2 ^ k) s) in *.
  assert (HCG : CACHE_GRANULARITY = 2 ^ 20) by reflexivity.
  destruct (Z.ltb_spec a1 CACHE_GRANULARITY) as [L1|L1].
  - destruct (Z.ltb_spec CACHE_GRANULARITY (2 ^ k)) as [L2|L2].
    + repeat split; try lia. apply Z.mod_same. lia.
    + repeat split; try lia.
      rewrite HCG in *. 
      assert (k <= 20).
      { destruct (Z.le_gt_cases k 20) as [?|G]; [assumption|].
        assert (2 ^ 20 < 2 ^ k) by (apply Z.pow_lt_mono_r; lia). lia. }
      replace 20 with ((20 - k) + k) by lia.
      rewrite Z.pow_add_r by lia. apply Z.mod_mul. lia.
  - destruct (Z.ltb_spec a1 (2 ^ k)) as [L2|L2].
    + repeat split; try lia. apply Z.mod_same. lia.
    + repeat split; try lia.
Qed.

(** Where the rounding does not wrap, the request is never shrunk. *)
Lemma normalize_ge_ceiling (k s : Z) :
  0 <= k < 32 -> 0 <= s <= 2 ^ 32 - 2 ^ k ->
  page_ceiling (2 ^ k) s <= normalize_allocSize (2 ^ k) s.
Proof.
  intros H Hs. unfold normalize_allocSize.
  rewrite round_to_page_ceiling by assumption.
  set (c := page_ceiling (2 ^ k) s).
  destruct (c <? CACHE_GRANULARITY) eqn:E1.
  - apply Z.ltb_lt in E1.
    destruct (CACHE_GRANULARITY <? 2 ^ k) eqn:E2; [apply Z.ltb_lt in E2|]; lia.
  - destruct (c <? 2 ^ k) eqn:E2; [apply Z.ltb_lt in E2|]; lia.
Qed.

(** For any page size that fits 32 bits the normalised size holds at least
    one page and fits 32 bits. *)
Lemma normalize_bounds (ps s : Z) :
  0 < ps < 2 ^ 32 -> 0 <= s < 2 ^ 32 ->
  ps <= normalize_allocSize ps s < 2 ^ 32.
Proof.
  intros Hp Hs. unfold normalize_allocSize.
  assert (Hr : 0 <= round_to_page ps s < 2 ^ 32).
  { unfold round_to_page.
    destruct (negb _); [apply wrap32_range|lia]. }
  set (a1 := round_to_page ps s) in *.
  assert (CACHE_GRANULARITY = 1048576) by reflexivity.
  destruct (Z.ltb_spec a1 CACHE_GRANULARITY);
    [destruct (Z.ltb_spec CACHE_GRANULARITY ps)
    |destruct (Z.ltb_spec a1 ps)]; lia.
Qed.

(** C4 (the code breaks the claim).  A request in the last page below
    2^32 makes the rounding of line 92 wrap to 0: the normalised size is
    then the 1 MiB floor, which is below the request itself and below the
    request rounded up to the page size. *)
Theorem normalize_wraps_below_request :
  normalize_allocSize 4096 4294967295 = 1048576 /\
  round_to_page 4096 4294967295 = 0 /\
  normalize_allocSize 4096 4294967295 < 4294967295 /\
  normalize_allocSize 4096 4294967295 < page_ceiling 4096 4294967295.
Proof. repeat split; reflexivity. Qed.

(** ** Attempt budget *)

Lemma to_int_small (x : Z) : 0 <= x < 2 ^ 31 -> to_int x = x.
Proof.
  intros H. unfold to_int.
  destruct (Z.ltb_spec x (2 ^ 31)); [reflexivity|lia].
Qed.

Lemma attempt_quota_bounds (ps avail a : Z) :
  0 < ps <= a -> 0 <= avail < 2 ^ 32 ->
  0 <= attempt_quota ps avail a <= avail / (a / ps) * 3 / 4 /\
  4 * (attempt_quota ps avail a * (a / ps)) <= 3 * avail.
Proof.
  intros Hp Hv. unfold attempt_quota.
  assert (Hpages : 1 <= a / ps).
  { apply Z.div_le_lower_bound; lia. }
  set (pages := a / ps) in *.
  assert (Hq : 0 <= avail / pages) by (apply Z.div_pos; lia).
  assert (Hqp : avail / pages * pages <= avail).
  { rewrite Z.mul_comm. apply Z.mul_div_le. lia. }
  set (q := avail / pages) in *.
  pose proof (wrap32_range (q * 3)) as Hw.
  assert (Hle : wrap32 (q * 3) <= q * 3).
  { unfold wrap32. apply Z.mod_le; lia. }
  set (w := wrap32 (q * 3)) in *.
  assert (Hw4 : 0 <= w / 4 < 2 ^ 31).
  { split; [apply Z.div_pos; lia|].
    apply Z.div_lt_upper_bound; [lia|]. 
    change (2 ^ 31) with 2147483648. change (2 ^ 32) with 4294967296 in Hw.
    lia. }
  rewrite to_int_small by exact Hw4.
  assert (H4 : 4 * (w / 4) <= w) by (apply Z.mul_div_le; lia).
  repeat split; try lia.
  - apply Z.div_le_mono; lia.
  - nia.
Qed.

Lemma numTrials_bounds (ps avail a : Z) :
  0 < ps <= a -> 0 <= avail < 2 ^ 32 ->
  let n := numTrials_of ps avail a in
  0 <= n <= avail / (a / ps) * 3 / 4 /\ n <= MAX_ATTEMPT /\
  4 * (n * (a / ps)) <= 3 * avail.
Proof.
  intros Hp Hv n. subst n. unfold numTrials_of.
  destruct (attempt_quota_bounds ps avail a Hp Hv) as [[H0 H1] H2].
  assert (Hpages : 1 <= a / ps) by (apply Z.div_le_lower_bound; lia).
  assert (HM : MAX_ATTEMPT = 1024) by reflexivity.
  destruct (Z.gtb_spec (attempt_quota ps avail a) MAX_ATTEMPT) as [G|G].
  - repeat split; try lia. nia.
  - repeat split; lia.
Qed.

(** ** The cache-friendly mask and the classification of a transition *)

Lemma cacheFriendlyFactor_pow2 (k : Z) :
  0 <= k < 32 ->
  1 <= mask_bits k <= 32 /\
  cacheFriendlyFactor_init (2 ^ k) = 2 ^ mask_bits k - 1.
Proof.
  intros H.
  assert (Hall : forallb (fun k =>
            (1 <=? mask_bits k) && (mask_bits k <=? 32)
            && (cacheFriendlyFactor_init (2 ^ k) =? 2 ^ mask_bits k - 1))
          (seqZ 0 32) = true) by (vm_compute; reflexivity).
  rewrite forallb_forall in Hall.
  specialize (Hall k). 
  assert (Hin : In k (seqZ 0 32)).
  { apply list_elem_of_In, elem_of_seqZ. lia. }
  apply Hall in Hin.
  apply andb_prop in Hin as [Hin H3]. apply andb_prop in Hin as [H1 H2].
  apply Z.leb_le in H1, H2. apply Z.eqb_eq in H3. auto.
Qed.

Lemma land_lor_low_bits (j a b : Z) :
  0 <= j ->
  Z.land (2 ^ j - 1) (Z.lor a b) = 0 <-> a mod 2 ^ j = 0 /\ b mod 2 ^ j = 0.
Proof.
  intros Hj.
  replace (2 ^ j - 1) with (Z.ones j) by (rewrite Z.ones_equiv; lia).
  rewrite Z.land_comm, Z.land_lor_distr_l, !Z.land_ones by lia.
  apply Z.lor_eq_0_iff.
Qed.

Lemma classify_cases (cff prev curr : Z) :
  (classify cff prev curr = Contiguous <-> curr = wrap32 (prev + 1)) /\
  (classify cff prev curr = CompatibleGap <->
     curr <> wrap32 (prev + 1) /\
     Z.land cff (Z.lor (wrap32 (prev + 1)) curr) = 0) /\
  (classify cff prev curr = Incompatible <->
     curr <> wrap32 (prev + 1) /\
     Z.land cff (Z.lor (wrap32 (prev + 1)) curr) <> 0).
Proof.
  unfold classify.
  destruct (Z.eqb_spec curr (wrap32 (prev + 1))) as [E|E]; simpl.
  - repeat split; try tauto; intros; try discriminate; tauto.
  - destruct (Z.eqb_spec (Z.land cff (Z.lor (wrap32 (prev + 1)) curr)) 0)
      as [F|F]; simpl;
      repeat split; intros; try discriminate; try tauto.
Qed.

(** On a power-of-two page size the mask test says that both sides of the
    gap start a block of [cacheFriendlyFactor + 1] pages. *)
Lemma compatible_iff_multiples (k prev curr : Z) :
  0 <= k < 32 ->
  let cff := cacheFriendlyFactor_init (2 ^ k) in
  Z.land cff (Z.lor (wrap32 (prev + 1)) curr) = 0 <->
  (prev + 1) mod (cff + 1) = 0 /\ curr mod (cff + 1) = 0.
Proof.
  intros H cff. subst cff.
  destruct (cacheFriendlyFactor_pow2 k H) as [Hj ->].
  rewrite land_lor_low_bits by lia.
  replace (2 ^ mask_bits k - 1 + 1) with (2 ^ mask_bits k) by lia.
  rewrite wrap32_mod_pow2 by lia. reflexivity.
Qed.

(** ** The page walk *)

Section WalkFacts.
Variables (cff : Z) (frames : Z -> Z).
Let f (p : Z) : Z := wrap32 (frames p).

Lemma count_gaps_nonneg (m : nat) : 0 <= count_gaps cff f m.
Proof.
  induction m as [|m IH]; simpl; [lia|].
  destruct (classify _ _ _); lia.
Qed.

(** From page [m+1] on, with the frame of page [m] in [prev_page]: when
    none of the next [n] transitions is incompatible the walk reads all
    [n] pages and counts the compatible gaps. *)
Lemma walk_pages_clean (n : nat) : forall m : nat,
  (forall i : nat, (m <= i < m + n)%nat ->
     classify cff (f (Z.of_nat i)) (f (Z.of_nat i + 1)) <> Incompatible) ->
  walk_pages cff frames n (Z.of_nat m + 1) (f (Z.of_nat m))
    (count_gaps cff f m)
  = (WalkEnd (Z.of_nat (m + n) + 1) (count_gaps cff f (m + n)),
     seqZ (Z.of_nat m + 1) (Z.of_nat n)).
Proof.
  induction n as [|n IH]; intros m Hok.
  - simpl. rewrite Nat.add_0_r. reflexivity.
  - cbn [walk_pages].
    replace (Z.of_nat m + 1 =? 0) with false by (symmetry; apply Z.eqb_neq; lia).
    cbn [negb]. fold (f (Z.of_nat m + 1)).
    assert (Hm := Hok m ltac:(lia)).
    assert (Hrec : walk_pages cff frames n (Z.of_nat (S m) + 1)
              (f (Z.of_nat (S m))) (count_gaps cff f (S m))
            = (WalkEnd (Z.of_nat (S m + n) + 1) (count_gaps cff f (S m + n)),
               seqZ (Z.of_nat (S m) + 1) (Z.of_nat n))).
    { apply IH. intros i Hi. apply Hok. lia. }
    rewrite (seqZ_cons _ (Z.of_nat (S n))) by lia.
    replace (Z.pred (Z.of_nat (S n))) with (Z.of_nat n) by lia.
    replace (Z.succ (Z.of_nat m + 1)) with (Z.of_nat (S m) + 1) by lia.
    replace (m + S n)%nat with (S m + n)%nat by lia.
    replace (Z.of_nat m + 1 + 1) with (Z.of_nat (S m) + 1) by lia.
    cbn [count_gaps] in Hrec.
    replace (Z.of_nat m + 1) with (Z.of_nat (S m)) in * by lia.
    destruct (classify cff (f (Z.of_nat m)) (f (Z.of_nat (S m)))) eqn:E.
    + rewrite Z.add_0_r in Hrec. rewrite Hrec. reflexivity.
    + rewrite Hrec. reflexivity.
    + congruence.
Qed.

(** The walk is left at the first incompatible transition. *)
Lemma walk_pages_break (n : nat) : forall m j : nat,
  (m <= j < m + n)%nat ->
  (forall i : nat, (m <= i < j)%nat ->
     classify cff (f (Z.of_nat i)) (f (Z.of_nat i + 1)) <> Incompatible) ->
  classify cff (f (Z.of_nat j)) (f (Z.of_nat j + 1)) = Incompatible ->
  walk_pages cff frames n (Z.of_nat m + 1) (f (Z.of_nat m))
    (count_gaps cff f m)
  = (WalkEnd (Z.of_nat j + 1) (count_gaps cff f j),
     seqZ (Z.of_nat m + 1) (Z.of_nat (j - m) + 1)).
Proof.
  induction n as [|n IH]; intros m j Hj Hok Hbad; [lia|].
  cbn [walk_pages].
  replace (Z.of_nat m + 1 =? 0) with false by (symmetry; apply Z.eqb_neq; lia).
  cbn [negb]. fold (f (Z.of_nat m + 1)).
  destruct (Nat.eq_dec j m) as [->|Hne].
  - rewrite Hbad. rewrite Nat.sub_diag. reflexivity.
  - assert (Hm := Hok m ltac:(lia)).
    assert (Hrec := IH (S m) j ltac:(lia)
                      ltac:(intros i Hi; apply Hok; lia) Hbad).
    rewrite (seqZ_cons _ (Z.of_nat (j - m) + 1)) by lia.
    replace (Z.pred (Z.of_nat (j - m) + 1)) with (Z.of_nat (j - S m) + 1) by lia.
    replace (Z.succ (Z.of_nat m + 1)) with (Z.of_nat (S m) + 1) by lia.
    replace (Z.of_nat m + 1 + 1) with (Z.of_nat (S m) + 1) by lia.
    cbn [count_gaps] in Hrec.
    replace (Z.of_nat m + 1) with (Z.of_nat (S m)) in * by lia.
    destruct (classify cff (f (Z.of_nat m)) (f (Z.of_nat (S m)))) eqn:E.
    + rewrite Z.add_0_r in Hrec. rewrite Hrec. reflexivity.
    + rewrite Hrec. reflexivity.
    + congruence.
Qed.

(** The gap counter never goes down. *)
Lemma walk_pages_gaps_mono (n : nat) : forall page prev g p' g',
  (walk_pages cff frames n page prev g).1 = WalkEnd p' g' -> g <= g'.
Proof.
  induction n as [|n IH]; intros page prev g p' g'; cbn [walk_pages].
  - simpl. intros [= _ <-]. lia.
  - destruct (negb (page =? 0)).
    + destruct (classify _ _ _); cbn [fst].
      * apply IH.
      * intros H. apply IH in H. lia.
      * intros [= _ <-]. lia.
    + destruct (_ =? 0); cbn [fst]; [discriminate|apply IH].
Qed.

(** The three ways a trial's walk from page 0 can go. *)
Lemma walk_first_frame_zero (n : nat) :
  f 0 = 0 -> walk_pages cff frames (S n) 0 0 0 = (WalkAbort, [0]).
Proof.
  intros H0. cbn [walk_pages]. simpl (negb _). fold (f 0).
  rewrite H0. reflexivity.
Qed.

Lemma walk_fully_mapped (n : nat) :
  f 0 <> 0 ->
  (forall i : nat, (i < n)%nat ->
     classify cff (f (Z.of_nat i)) (f (Z.of_nat i + 1)) <> Incompatible) ->
  walk_pages cff frames (S n) 0 0 0
  = (WalkEnd (Z.of_nat n + 1) (count_gaps cff f n), seqZ 0 (Z.of_nat n + 1)).
Proof.
  intros H0 Hok. cbn [walk_pages]. simpl (negb _). fold (f 0).
  destruct (Z.eqb_spec (f 0) 0) as [E|_]; [contradiction|].
  pose proof (walk_pages_clean n 0 ltac:(intros i Hi; apply Hok; lia)) as W.
  change (Z.of_nat 0) with 0 in W. change (count_gaps cff f 0) with 0 in W.
  rewrite Nat.add_0_l in W. rewrite W.
  rewrite (seqZ_cons 0 (Z.of_nat n + 1)) by lia.
  replace (Z.pred (Z.of_nat n + 1)) with (Z.of_nat n) by lia.
  reflexivity.
Qed.

Lemma walk_stops_at_incompatible (n j : nat) :
  f 0 <> 0 -> (j < n)%nat ->
  (forall i : nat, (i < j)%nat ->
     classify cff (f (Z.of_nat i)) (f (Z.of_nat i + 1)) <> Incompatible) ->
  classify cff (f (Z.of_nat j)) (f (Z.of_nat j + 1)) = Incompatible ->
  walk_pages cff frames (S n) 0 0 0
  = (WalkEnd (Z.of_nat j + 1) (count_gaps cff f j),
     seqZ 0 (Z.of_nat j + 2)).
Proof.
  intros H0 Hj Hok Hbad. cbn [walk_pages]. simpl (negb _). fold (f 0).
  destruct (Z.eqb_spec (f 0) 0) as [E|_]; [contradiction|].
  pose proof (walk_pages_break n 0 j ltac:(lia)
                ltac:(intros i Hi; apply Hok; lia) Hbad) as W.
  change (Z.of_nat 0) with 0 in W. change (count_gaps cff f 0) with 0 in W.
  rewrite W.
  rewrite (seqZ_cons 0 (Z.of_nat j + 2)) by lia.
  replace (Z.pred (Z.of_nat j + 2)) with (Z.of_nat (j - 0) + 1) by lia.
  reflexivity.
Qed.
End WalkFacts.

(** ** The bookkeeping table *)

Lemma slot_store_eq (tbl : list Z) (i v : Z) :
  (Z.to_nat i < length tbl)%nat -> slot (store tbl i v) i = v.
Proof.
  intros H. unfold slot, store.
  rewrite list_lookup_insert_eq by exact H. reflexivity.
Qed.

Lemma slot_store_ne (tbl : list Z) (i j v : Z) :
  0 <= i -> 0 <= j -> i <> j -> slot (store tbl i v) j = slot tbl j.
Proof.
  intros Hi Hj Hne. unfold slot, store.
  rewrite list_lookup_insert_ne by lia. reflexivity.
Qed.

Lemma length_store (tbl : list Z) (i v : Z) :
  length (store tbl i v) = length tbl.
Proof. unfold store. apply length_insert. Qed.

(** ** One trial *)

Section TrialFacts.
Variable os : Env.
Variables (pgSize cff allocSize : Z).
Variable tbl0 : list Z.

Local Abbreviation blk := (block_of os tbl0).
Local Abbreviation vrd := (verdict os pgSize cff allocSize tbl0).
Local Abbreviation evs := (trial_events os pgSize cff allocSize tbl0).

Lemma after_memalign_slot (s : Search) :
  (Z.to_nat (trial s) < length (table s))%nat ->
  slot (table s) (trial s) = slot tbl0 (trial s) ->
  slot (table (after_memalign os s)) (trial s) = blk (trial s).
Proof.
  intros Hlen Hsame. unfold after_memalign, block_of.
  destruct (posix_memalign os (trial s)) as [p|]; simpl.
  - apply slot_store_eq. exact Hlen.
  - exact Hsame.
Qed.

Lemma verdict_gaps_nonneg (t g : Z) : vrd t = Qualified g -> 0 <= g.
Proof.
  unfold verdict.
  destruct (_ =? 0); [discriminate|].
  destruct (mlock os t); [discriminate|].
  destruct (walk_of os pgSize cff allocSize t).1 as [p g'|] eqn:W;
    [|discriminate].
  destruct (p =? _); [|discriminate].
  intros [= <-]. unfold walk_of in W.
  apply walk_pages_gaps_mono in W. exact W.
Qed.

(** The loop body does what the trial's verdict says. *)
Lemma trial_body_spec (s : Search) :
  (Z.to_nat (trial s) < length (table s))%nat ->
  slot (table s) (trial s) = slot tbl0 (trial s) ->
  let s1 := after_memalign os s in
  trial_body os pgSize cff allocSize s =
    (match vrd (trial s) with
     | AllocFailed | PinFailed => Break
     | Aborted => ErrorExit
     | Disqualified => Next
     | Qualified g =>
       if ((bestBlock s =? -1) || (g <? bestGapCount s)) && (g =? 0)
       then Break else Next
     end,
     match vrd (trial s) with
     | Qualified g =>
       if (bestBlock s =? -1) || (g <? bestGapCount s)
       then select s1 g else s1
     | _ => s1
     end,
     evs (trial s)).
Proof.
  intros Hlen Hsame s1.
  pose proof (after_memalign_slot s Hlen Hsame) as Hb. fold s1 in Hb.
  assert (Hs1 : trial s1 = trial s /\ bestBlock s1 = bestBlock s /\
                bestGapCount s1 = bestGapCount s).
  { subst s1. unfold after_memalign.
    destruct (posix_memalign os (trial s)); simpl; auto. }
  destruct Hs1 as (Ht1 & Hbb & Hbg).
  unfold trial_body, verdict, trial_events.
  fold (after_memalign os s). fold s1. rewrite Hb.
  destruct (blk (trial s) =? 0); [reflexivity|].
  destruct (mlock os (trial s)); [reflexivity|].
  unfold walk_of.
  destruct (walk_pages cff (fread_pageFrame os (trial s))
              (Z.to_nat (allocPages pgSize allocSize)) 0 0 0)
    as [[p g|] l]; simpl; [|reflexivity].
  destruct (p =? allocPages pgSize allocSize); [|reflexivity].
  rewrite Hbb, Hbg.
  destruct ((bestBlock s =? -1) || (g <? bestGapCount s)); simpl;
    [|reflexivity].
  destruct (g =? 0); reflexivity.
Qed.
End TrialFacts.

(** ** The trial loop *)

Section LoopFacts.
Variable os : Env.
Variables (pgSize cff allocSize : Z).
Variable tbl0 : list Z.
Variable numTrials : Z.
Hypothesis table_capacity : numTrials <= Z.of_nat (length tbl0).

Local Abbreviation blk := (block_of os tbl0).
Local Abbreviation vrd := (verdict os pgSize cff allocSize tbl0).
Local Abbreviation evs := (trial_events os pgSize cff allocSize tbl0).
Local Abbreviation best := (is_best os pgSize cff allocSize tbl0).
Local Abbreviation none := (no_candidate os pgSize cff allocSize tbl0).
Local Abbreviation cand := (candidate_state os pgSize cff allocSize tbl0).
Local Abbreviation inv := (running os pgSize cff allocSize tbl0).
Local Abbreviation fin := (finished os pgSize cff allocSize tbl0 numTrials).

Lemma after_memalign_fields (s : Search) :
  let s1 := after_memalign os s in
  trial s1 = trial s /\ physBlock s1 = physBlock s /\
  bestBlock s1 = bestBlock s /\ bestGapCount s1 = bestGapCount s /\
  length (table s1) = length (table s).
Proof.
  unfold after_memalign.
  destruct (posix_memalign os (trial s)); simpl; repeat split;
    try reflexivity.
  apply length_store.
Qed.

Lemma after_memalign_other (s : Search) (i : Z) :
  0 <= trial s -> 0 <= i -> i <> trial s ->
  slot (table (after_memalign os s)) i = slot (table s) i.
Proof.
  intros Ht Hi Hne. unfold after_memalign.
  destruct (posix_memalign os (trial s)); simpl; [|reflexivity].
  apply slot_store_ne; lia.
Qed.

Lemma no_candidate_extend (k : Z) :
  none k -> (forall g, vrd k <> Qualified g) -> none (k + 1).
Proof.
  intros Hnone Hk i g Hi.
  destruct (Z.eq_dec i k) as [->|Hne]; [apply Hk|apply Hnone; lia].
Qed.

Lemma is_best_extend (k b g : Z) :
  best k b g ->
  (forall g', vrd k = Qualified g' -> g <= g') ->
  best (k + 1) b g.
Proof.
  intros (Hb & Hv & Hmin) Hk. repeat split; try lia; try assumption.
  - destruct (Z.eq_dec i k) as [->|Hne]; [apply Hk; assumption|].
    apply (Hmin i g'); [lia|assumption].
  - intros Hg. destruct (Z.eq_dec i k) as [->|Hne]; [lia|].
    apply (Hmin i g'); [lia|assumption|assumption].
Qed.

Lemma is_best_new (k g : Z) :
  0 <= k -> vrd k = Qualified g ->
  (forall i g', 0 <= i < k -> vrd i = Qualified g' -> g < g') ->
  best (k + 1) k g.
Proof.
  intros Hk Hv Hlt. repeat split; try lia; try assumption.
  - destruct (Z.eq_dec i k) as [->|Hne];
      [assert (g' = g) by congruence; lia|].
    assert (g < g') by (apply (Hlt i); [lia|assumption]). lia.
  - intros Hg. destruct (Z.eq_dec i k) as [->|Hne]; [lia|].
    assert (g < g') by (apply (Hlt i); [lia|assumption]). lia.
Qed.

(** A trial that leaves the loop: the state at [error_exit]. *)
Lemma stop_finished (k : Z) (s s' : Search) :
  inv k s -> k < numTrials ->
  stops (vrd k) = true ->
  trial s' = k -> table s' = table (after_memalign os s) ->
  cand (k + 1) s' ->
  fin s'.
Proof.
  intros (Ht & Hk & Hlen & Habove & Hbelow & Hrun & _ & _) Hlt Hstop
    Ht' Htbl Hcand.
  pose proof (after_memalign_fields s) as (_ & _ & _ & _ & Hl1).
  unfold finished, last_trial. rewrite Ht'.
  replace (k =? numTrials) with false by (symmetry; apply Z.eqb_neq; lia).
  repeat split.
  - right. auto with zarith.
  - exact Hrun.
  - rewrite Htbl. congruence.
  - intros i Hi. rewrite Htbl.
    destruct (Z.eq_dec i k) as [->|Hne].
    + rewrite <- Ht. apply after_memalign_slot.
      * rewrite Ht, Hlen. lia.
      * apply Habove. lia.
    + rewrite after_memalign_other by lia. apply Hbelow. lia.
  - exact Hcand.
Qed.

(** A trial after which the loop goes on: the invariant at [trial + 1]. *)
Lemma next_running (k : Z) (s s' : Search) :
  inv k s -> k < numTrials ->
  stops (vrd k) = false ->
  trial s' = k -> table s' = table (after_memalign os s) ->
  cand (k + 1) s' -> (bestBlock s' <> -1 -> 0 < bestGapCount s') ->
  inv (k + 1) (next_trial s').
Proof.
  intros (Ht & Hk & Hlen & Habove & Hbelow & Hrun & _ & _) Hlt Hgo
    Ht' Htbl Hcand Hpos.
  pose proof (after_memalign_fields s) as (_ & _ & _ & _ & Hl1).
  unfold running. simpl. rewrite Htbl, Ht'.
  repeat split; try lia.
  - intros i Hi. rewrite after_memalign_other by lia. apply Habove. lia.
  - intros i Hi. destruct (Z.eq_dec i k) as [->|Hne].
    + rewrite <- Ht. apply after_memalign_slot.
      * rewrite Ht, Hlen. lia.
      * apply Habove. lia.
    + rewrite after_memalign_other by lia. apply Hbelow. lia.
  - intros i Hi. destruct (Z.eq_dec i k) as [->|Hne];
      [exact Hgo|apply Hrun; lia].
  - exact Hcand.
Qed.

Lemma cand_fields (n : Z) (s s' : Search) :
  bestBlock s' = bestBlock s -> physBlock s' = physBlock s ->
  bestGapCount s' = bestGapCount s -> cand n s -> cand n s'.
Proof.
  unfold candidate_state. intros -> -> ->. exact (fun H => H).
Qed.

(** A trial that does not qualify leaves the candidate as it was. *)
Lemma cand_not_qualified (k : Z) (s : Search) :
  (forall g, vrd k <> Qualified g) -> cand k s ->
  cand (k + 1) (after_memalign os s).
Proof.
  intros Hnq Hc.
  pose proof (after_memalign_fields s) as (_ & Hp & Hb & Hg & _).
  apply (cand_fields _ s); try assumption.
  destruct Hc as [(H1 & H2 & H3)|(H1 & H2)]; [left|right].
  - repeat split; try assumption. apply no_candidate_extend; assumption.
  - split; [|assumption]. apply is_best_extend; [assumption|].
    intros g' Hq. exfalso. exact (Hnq g' Hq).
Qed.

(** A qualifying trial that beats the candidate replaces it. *)
Lemma cand_selected (k g : Z) (s : Search) :
  inv k s -> k < numTrials -> vrd k = Qualified g ->
  (bestBlock s =? -1) || (g <? bestGapCount s) = true ->
  cand (k + 1) (select (after_memalign os s) g).
Proof.
  intros Hinv Hlt Hv Hsel.
  pose proof Hinv as (Ht & Hk & Hlen & Habove & _ & _ & Hc & _).
  pose proof (after_memalign_fields s) as (Ht1 & _).
  right. simpl. rewrite Ht1, Ht. split.
  - apply is_best_new; [assumption|assumption|].
    intros i g' Hi Hq.
    destruct Hc as [(_ & _ & Hnone)|((Hb & _ & Hmin) & _)].
    + exfalso. exact (Hnone i g' Hi Hq).
    + replace (bestBlock s =? -1) with false in Hsel
        by (symmetry; apply Z.eqb_neq; lia).
      simpl in Hsel. apply Z.ltb_lt in Hsel.
      destruct (Hmin i g' Hi Hq). lia.
  - rewrite <- Ht. apply after_memalign_slot.
    + rewrite Ht, Hlen. lia.
    + apply Habove. lia.
Qed.

(** A qualifying trial that does not beat the candidate: the candidate
    stays, and the trial has at least one gap. *)
Lemma cand_kept (k g : Z) (s : Search) :
  inv k s -> vrd k = Qualified g ->
  (bestBlock s =? -1) || (g <? bestGapCount s) = false ->
  cand (k + 1) (after_memalign os s) /\ 0 < g.
Proof.
  intros Hinv Hv Hsel.
  pose proof Hinv as (Ht & Hk & _ & _ & _ & _ & Hc & Hpos).
  pose proof (after_memalign_fields s) as (_ & Hp & Hb & Hg & _).
  apply orb_false_elim in Hsel as [Hb1 Hg1].
  apply Z.eqb_neq in Hb1. apply Z.ltb_ge in Hg1.
  specialize (Hpos Hb1). split; [|lia].
  apply (cand_fields _ s); try assumption.
  destruct Hc as [(H1 & _)|(H1 & H2)]; [contradiction|].
  right. split; [|assumption]. apply is_best_extend; [assumption|].
  intros g' Hq. assert (g' = g) by congruence. lia.
Qed.

(** The loop from [trial = k] on: the state at [error_exit], and the
    library calls made, which are those of trials [k] to the last one. *)
Lemma trial_loop_spec (n : nat) : forall k s,
  inv k s -> Z.of_nat n = numTrials - k ->
  let r := trial_loop os pgSize cff allocSize n s in
  fin r.1 /\ k <= last_trial numTrials r.1 + 1 /\
  r.2 = flat_map evs (seqZ k (last_trial numTrials r.1 + 1 - k)).
Proof.
  induction n as [|n IH]; intros k s Hinv Hn; cbn [trial_loop].
  - pose proof Hinv as (Ht & Hk & Hlen & Habove & Hbelow & Hrun & Hc & _).
    assert (Hl : last_trial numTrials s + 1 = k).
    { unfold last_trial. rewrite Ht.
      replace (k =? numTrials) with true by (symmetry; apply Z.eqb_eq; lia).
      lia. }
    cbn [fst snd]. unfold finished. rewrite Hl.
    split; [|split; [lia|rewrite Z.sub_diag; reflexivity]].
    split; [left; lia|]. split; [rewrite Ht; exact Hrun|].
    split; [exact Hlen|]. split; assumption.
  - pose proof Hinv as (Ht & Hk & Hlen & Habove & Hbelow & Hrun & Hc & Hpos).
    assert (Hlt : k < numTrials) by lia.
    rewrite (trial_body_spec os pgSize cff allocSize tbl0 s)
      by first [rewrite Ht, Hlen; lia | apply Habove; lia].
    rewrite Ht.
    pose proof (after_memalign_fields s) as (Ht1 & _).
    assert (Hstop : forall s', trial s' = k ->
              table s' = table (after_memalign os s) ->
              stops (vrd k) = true -> cand (k + 1) s' ->
              fin s' /\ k <= last_trial numTrials s' + 1 /\
              evs k = flat_map evs (seqZ k (last_trial numTrials s' + 1 - k))).
    { intros s' Ht' Htbl Hs Hc'.
      assert (Hl : last_trial numTrials s' = k).
      { unfold last_trial. rewrite Ht'.
        replace (k =? numTrials) with false
          by (symmetry; apply Z.eqb_neq; lia). reflexivity. }
      split; [eapply stop_finished; eassumption|].
      rewrite Hl. split; [lia|].
      replace (k + 1 - k) with 1 by lia.
      rewrite (seqZ_cons k 1), seqZ_nil by lia. simpl.
      rewrite app_nil_r. reflexivity. }
    assert (Hnext : forall s', trial s' = k ->
              table s' = table (after_memalign os s) ->
              stops (vrd k) = false -> cand (k + 1) s' ->
              (bestBlock s' <> -1 -> 0 < bestGapCount s') ->
              let r := trial_loop os pgSize cff allocSize n (next_trial s') in
              fin r.1 /\ k <= last_trial numTrials r.1 + 1 /\
              evs k ++ r.2 =
                flat_map evs (seqZ k (last_trial numTrials r.1 + 1 - k))).
    { intros s' Ht' Htbl Hs Hc' Hp' r.
      destruct (IH (k + 1) (next_trial s')) as (Hf & Hle & Hev).
      - eapply next_running; eassumption.
      - lia.
      - fold r in Hf, Hle, Hev.
        split; [exact Hf|]. split; [lia|].
        rewrite (seqZ_cons k) by lia. simpl. f_equal.
        rewrite Hev.
        replace (Z.succ k) with (k + 1) by lia.
        replace (Z.pred (last_trial numTrials r.1 + 1 - k))
          with (last_trial numTrials r.1 + 1 - (k + 1)) by lia.
        reflexivity. }
    assert (Hkeep : bestBlock (after_memalign os s) <> -1 ->
                    0 < bestGapCount (after_memalign os s)).
    { pose proof (after_memalign_fields s) as (_ & _ & -> & -> & _).
      exact Hpos. }
    destruct (vrd k) as [| | | |g] eqn:V; cbn [fst snd].
    + apply Hstop; [congruence|reflexivity|reflexivity|].
      apply cand_not_qualified; [intros g; rewrite V; discriminate|assumption].
    + apply Hstop; [congruence|reflexivity|reflexivity|].
      apply cand_not_qualified; [intros g; rewrite V; discriminate|assumption].
    + apply Hstop; [congruence|reflexivity|reflexivity|].
      apply cand_not_qualified; [intros g; rewrite V; discriminate|assumption].
    + apply Hnext; [congruence|reflexivity|reflexivity| |assumption].
      apply cand_not_qualified; [intros g; rewrite V; discriminate|assumption].
    + pose proof (verdict_gaps_nonneg _ _ _ _ _ _ _ V) as Hg0.
      destruct ((bestBlock s =? -1) || (g <? bestGapCount s)) eqn:Hsel;
        cbn [andb].
      * pose proof (cand_selected k g s Hinv Hlt V Hsel) as Hc'.
        destruct (Z.eqb_spec g 0) as [->|Hg].
        -- apply Hstop; [simpl; congruence|reflexivity|reflexivity|exact Hc'].
        -- apply Hnext; [simpl; congruence|reflexivity| |exact Hc'|].
           ++ simpl. apply Z.eqb_neq. exact Hg.
           ++ simpl. lia.
      * destruct (cand_kept k g s Hinv V Hsel) as [Hc' Hgpos].
        apply Hnext; [congruence|reflexivity| |exact Hc'|assumption].
        simpl. apply Z.eqb_neq. lia.
Qed.
End LoopFacts.

(** ** The cleanup loop *)

Section CleanupFacts.
Variables (allocSize : Z) (tbl : list Z) (best : Z).

(** Every call made by the cleanup loop is the munlock or the free of a
    non-null slot in [0, unwind] other than [bestBlock]. *)
Lemma cleanup_In (n : nat) : forall unwind e,
  Z.of_nat n = unwind + 1 ->
  In e (cleanup allocSize tbl best n unwind) ->
  exists i, 0 <= i <= unwind /\ i <> best /\ slot tbl i <> 0 /\
    In e (release (slot tbl i) allocSize).
Proof.
  induction n as [|n IH]; intros unwind e Hn; cbn [cleanup];
    [intros []|].
  rewrite in_app_iff. intros [Hin|Hin].
  - destruct (Z.eqb_spec unwind best) as [|Hb]; [destruct Hin|].
    destruct (Z.eqb_spec (slot tbl unwind) 0) as [|H0]; [destruct Hin|].
    exists unwind. repeat split; try lia; assumption.
  - destruct (IH (unwind - 1) e ltac:(lia) Hin) as (i & Hi & Hrest).
    exists i. split; [lia|exact Hrest].
Qed.

(** Every non-null slot in [0, unwind] other than [bestBlock] is
    unpinned and then freed. *)
Lemma cleanup_releases (n : nat) : forall unwind i,
  Z.of_nat n = unwind + 1 ->
  0 <= i <= unwind -> i <> best -> slot tbl i <> 0 ->
  exists pre post,
    cleanup allocSize tbl best n unwind
    = pre ++ release (slot tbl i) allocSize ++ post.
Proof.
  induction n as [|n IH]; intros unwind i Hn Hi Hb H0; [lia|].
  cbn [cleanup].
  destruct (Z.eq_dec i unwind) as [->|Hne].
  - replace (unwind =? best) with false by (symmetry; apply Z.eqb_neq; lia).
    replace (slot tbl unwind =? 0) with false
      by (symmetry; apply Z.eqb_neq; lia).
    exists [], (cleanup allocSize tbl best n (unwind - 1)). reflexivity.
  - destruct (IH (unwind - 1) i ltac:(lia) ltac:(lia) Hb H0)
      as (pre & post & ->).
    eexists (_ ++ pre), post. rewrite <- app_assoc. reflexivity.
Qed.

Lemma cleanup_teardown (n : nat) : forall unwind,
  forallb is_teardown (cleanup allocSize tbl best n unwind) = true.
Proof.
  induction n as [|n IH]; intros unwind; cbn [cleanup]; [reflexivity|].
  rewrite forallb_app, IH.
  destruct (negb _ && negb _); reflexivity.
Qed.

Lemma cleanup_empty (n : nat) : forall unwind,
  (forall i, 0 <= i <= unwind -> i = best \/ slot tbl i = 0) ->
  Z.of_nat n = unwind + 1 ->
  cleanup allocSize tbl best n unwind = [].
Proof.
  induction n as [|n IH]; intros unwind Hall Hn; cbn [cleanup];
    [reflexivity|].
  rewrite IH by (try lia; intros i Hi; apply Hall; lia).
  destruct (Hall unwind ltac:(lia)) as [->| ->].
  - rewrite Z.eqb_refl. reflexivity.
  - rewrite andb_false_r. reflexivity.
Qed.
End CleanupFacts.

(** ** Which trials are entered *)

Section AttemptedFacts.
Variable os : Env.
Variables (pgSize cff allocSize : Z).
Variable tbl0 : list Z.
Variable numTrials : Z.

Local Abbreviation vrd := (verdict os pgSize cff allocSize tbl0).
Local Abbreviation evs := (trial_events os pgSize cff allocSize tbl0).

Lemma attempted_spec (t : Z) :
  attempted os pgSize cff allocSize tbl0 numTrials t = true <->
  0 <= t < numTrials /\ forall i, 0 <= i < t -> stops (vrd i) = false.
Proof.
  unfold attempted.
  rewrite !andb_true_iff, Z.leb_le, Z.ltb_lt, forallb_forall.
  split.
  - intros [[H0 H1] Hall]. split; [lia|]. intros i Hi.
    apply negb_true_iff, Hall, list_elem_of_In, elem_of_seqZ. lia.
  - intros [H01 Hall]. split; [lia|]. intros i Hi.
    apply list_elem_of_In, elem_of_seqZ in Hi.
    apply negb_true_iff, Hall. lia.
Qed.

(** At [error_exit] the trials entered are those up to the last one. *)
Lemma finished_attempted (s : Search) (t : Z) :
  finished os pgSize cff allocSize tbl0 numTrials s ->
  attempted os pgSize cff allocSize tbl0 numTrials t = true <->
  0 <= t <= last_trial numTrials s.
Proof.
  intros (Hexit & Hrun & _). rewrite attempted_spec. unfold last_trial.
  destruct Hexit as [Hend|[Hlt Hstop]].
  - rewrite Hend, Z.eqb_refl. rewrite Hend in Hrun. split.
    + intros [H _]. lia.
    + intros H. split; [lia|]. intros i Hi. apply Hrun. lia.
  - replace (trial s =? numTrials) with false
      by (symmetry; apply Z.eqb_neq; lia).
    split.
    + intros [H Hall]. split; [lia|].
      destruct (Z.le_gt_cases t (trial s)) as [|Hgt]; [assumption|].
      rewrite (Hall (trial s)) in Hstop by lia. discriminate.
    + intros H. split; [lia|]. intros i Hi. apply Hrun. lia.
Qed.

(** The calls of a trial: one posix_memalign, and nothing of the
    teardown. *)
Lemma trials_issued_events (t : Z) : trials_issued (evs t) = [t].
Proof.
  unfold trial_events, trials_issued. cbn [flat_map app]. f_equal.
  destruct (_ =? 0); [reflexivity|]. cbn [flat_map app].
  destruct (mlock os t); [reflexivity|]. cbn [flat_map app].
  induction (walk_of os pgSize cff allocSize t).2 as [|p l IH];
    [reflexivity|exact IH].
Qed.

Lemma trial_events_no_teardown (t : Z) :
  existsb is_teardown (evs t) = false.
Proof.
  unfold trial_events. cbn [existsb is_teardown orb].
  destruct (_ =? 0); [reflexivity|]. cbn [existsb is_teardown orb].
  destruct (mlock os t); [reflexivity|]. cbn [existsb is_teardown orb].
  induction (walk_of os pgSize cff allocSize t).2 as [|p l IH];
    [reflexivity|exact IH].
Qed.

Lemma trials_issued_flat_map (l : list Z) :
  trials_issued (flat_map evs l) = l.
Proof.
  induction l as [|t l IH]; [reflexivity|].
  unfold trials_issued in *. cbn [flat_map].
  rewrite flat_map_app. fold (trials_issued (evs t)).
  rewrite trials_issued_events, IH. reflexivity.
Qed.

Lemma flat_map_no_teardown (l : list Z) :
  existsb is_teardown (flat_map evs l) = false.
Proof.
  induction l as [|t l IH]; [reflexivity|].
  cbn [flat_map]. rewrite existsb_app, trial_events_no_teardown, IH.
  reflexivity.
Qed.

(** A trial that passes the null test and pins its block logs the
    successful mlock. *)
Lemma trial_events_mlock (t : Z) :
  block_of os tbl0 t <> 0 -> mlock os t = false ->
  In (EvMlock (block_of os tbl0 t) allocSize false) (evs t).
Proof.
  intros Hb Hm. unfold trial_events. right.
  replace (block_of os tbl0 t =? 0) with false
    by (symmetry; apply Z.eqb_neq; exact Hb).
  rewrite Hm. left. reflexivity.
Qed.

Lemma verdict_qualified_block (t g : Z) :
  vrd t = Qualified g -> block_of os tbl0 t <> 0 /\ mlock os t = false.
Proof.
  unfold verdict.
  destruct (Z.eqb_spec (block_of os tbl0 t) 0); [discriminate|].
  destruct (mlock os t); [discriminate|]. auto.
Qed.
End AttemptedFacts.

Lemma teardown_trials_issued (tr : list Event) :
  forallb is_teardown tr = true -> trials_issued tr = [].
Proof.
  induction tr as [|e tr IH]; [reflexivity|].
  cbn [forallb]. rewrite andb_true_iff. intros [He Htr].
  unfold trials_issued in *. cbn [flat_map]. rewrite (IH Htr).
  destruct e; try discriminate; reflexivity.
Qed.

(** ** Whole calls *)

Lemma numTrials_of_range (ps avail a : Z) :
  0 <= numTrials_of ps avail a <= MAX_ATTEMPT.
Proof.
  unfold numTrials_of, attempt_quota.
  pose proof (wrap32_range (avail / (a / ps) * 3)) as Hw.
  set (w := wrap32 _) in *.
  assert (Hw4 : 0 <= w / 4 < 2 ^ 31).
  { split; [apply Z.div_pos; lia|].
    apply Z.div_lt_upper_bound; [lia|].
    change (2 ^ 31) with 2147483648. change (2 ^ 32) with 4294967296 in Hw.
    lia. }
  rewrite to_int_small by exact Hw4.
  assert (HM : MAX_ATTEMPT = 1024) by reflexivity.
  destruct (Z.gtb_spec (w / 4) MAX_ATTEMPT); lia.
Qed.

Lemma entry_table_length (os : Env) (st : Statics) :
  table_ok os st -> Z.of_nat (length (entry_table os st)) = MAX_ATTEMPT.
Proof.
  unfold table_ok, entry_table. intros H.
  rewrite length_store, H. reflexivity.
Qed.

Lemma entry_table_slot0 (os : Env) (st : Statics) :
  slot (entry_table os st) 0 = 0.
Proof.
  unfold entry_table, slot, store. simpl (Z.to_nat 0).
  destruct (blockArray (lazy_init os st)) as [|x l]; reflexivity.
Qed.

Section CallFacts.
Variables (os : Env) (st : Statics) (allocSize : Z).
Hypothesis Htable : table_ok os st.

Let ps := pageSize (lazy_init os st).
Let cff := cacheFriendlyFactor (lazy_init os st).
Let sz := call_allocSize os st allocSize.
Let N := call_numTrials os st allocSize.
Let tbl0 := entry_table os st.

(** With the stream open, the search ends in a finished state and its
    calls are those of the trials up to the last one. *)
Lemma search_spec :
  fopen_pagemap os = true ->
  let r := search os st allocSize in
  let L := last_trial N r.1 + 1 in
  finished os ps cff sz tbl0 N r.1 /\ 0 <= L <= N /\
  r.2 = EvFopen true :: flat_map (call_events os st allocSize) (seqZ 0 L).
Proof.
  intros Hopen. unfold search. rewrite Hopen. cbn [fst snd].
  assert (HN : 0 <= N <= MAX_ATTEMPT) by apply numTrials_of_range.
  assert (Hlen : Z.of_nat (length tbl0) = MAX_ATTEMPT)
    by (apply entry_table_length; exact Htable).
  set (s0 := {| table := _; trial := 0; physBlock := 0;
                bestBlock := -1; bestGapCount := -1 |}).
  assert (Hinv : running os ps cff sz tbl0 0 s0).
  { unfold running. simpl.
    repeat split; try lia; try reflexivity.
    - left. repeat split. intros i g Hi. lia. }
  destruct (trial_loop_spec os ps cff sz tbl0 N ltac:(lia)
              (Z.to_nat N) 0 s0 Hinv ltac:(lia)) as (Hfin & Hle & Hev).
  fold ps cff sz N.
  split; [exact Hfin|]. split.
  - split; [exact Hle|].
    destruct Hfin as (Hexit & _). unfold last_trial.
    destruct (Z.eqb_spec (trial (trial_loop os ps cff sz (Z.to_nat N) s0).1) N);
      lia.
  - f_equal. rewrite Hev. rewrite Z.sub_0_r. reflexivity.
Qed.

(** The two ways a call ends. *)
Lemma allocate_returns :
  fopen_pagemap os && fclose_pagemap os = false ->
  let s := (search os st allocSize).1 in
  outcome (allocate_phys_mem os st allocSize) = Return (physBlock s) /\
  trace (allocate_phys_mem os st allocSize)
  = (search os st allocSize).2
    ++ (if fopen_pagemap os then [EvFclose false] else [])
    ++ cleanup sz (table s) (bestBlock s)
         (Z.to_nat (last_trial N s + 1)) (last_trial N s).
Proof.
  intros H. unfold allocate_phys_mem. rewrite H. split; reflexivity.
Qed.

Lemma allocate_exits :
  fopen_pagemap os && fclose_pagemap os = true ->
  outcome (allocate_phys_mem os st allocSize) = ProcessExit (-1) /\
  trace (allocate_phys_mem os st allocSize)
  = (search os st allocSize).2 ++ [EvFclose true; EvExit (-1)].
Proof.
  intros H. unfold allocate_phys_mem. rewrite H. split; reflexivity.
Qed.

(** Whatever the ending, the calls after the search are teardown. *)
Lemma allocate_trace_split :
  exists post,
    trace (allocate_phys_mem os st allocSize)
    = (search os st allocSize).2 ++ post /\
    forallb is_teardown post = true.
Proof.
  destruct (fopen_pagemap os && fclose_pagemap os) eqn:E.
  - destruct (allocate_exits E) as [_ ->]. eexists. split; reflexivity.
  - destruct (allocate_returns E) as [_ ->]. eexists. split; [reflexivity|].
    rewrite forallb_app, cleanup_teardown.
    destruct (fopen_pagemap os); reflexivity.
Qed.

Lemma call_attempted_iff (t : Z) :
  fopen_pagemap os = true ->
  call_attempted os st allocSize t = true <->
  0 <= t <= last_trial N (search os st allocSize).1.
Proof.
  intros Hopen. unfold call_attempted. rewrite Hopen. cbn [andb].
  destruct (search_spec Hopen) as (Hfin & _).
  apply finished_attempted. exact Hfin.
Qed.

(** Without the pagemap stream nothing is allocated, pinned or freed. *)
Lemma allocate_no_pagemap :
  fopen_pagemap os = false ->
  outcome (allocate_phys_mem os st allocSize) = Return 0 /\
  trace (allocate_phys_mem os st allocSize) = [EvFopen false].
Proof.
  intros Hclosed.
  assert (E : fopen_pagemap os && fclose_pagemap os = false)
    by (rewrite Hclosed; reflexivity).
  destruct (allocate_returns E) as [-> ->].
  unfold search. rewrite Hclosed. cbn [fst snd physBlock table bestBlock].
  split; [reflexivity|]. cbn [app]. f_equal.
  apply cleanup_empty.
  - intros i Hi. right.
    assert (i = 0).
    { unfold last_trial in Hi. cbn [trial] in Hi.
      destruct (0 =? N); lia. }
    subst i. apply entry_table_slot0.
  - unfold last_trial. cbn [trial].
    pose proof (numTrials_of_range ps (wrap32 (sysconf_AVPHYS_PAGES os)) sz).
    destruct (Z.eqb_spec 0 N); lia.
Qed.
End CallFacts.


(** ** What a call does with its trials *)

Section SelectionFacts.
Variables (os : Env) (st : Statics) (allocSize : Z).
Hypothesis Htable : table_ok os st.

Let ps := pageSize (lazy_init os st).
Let cff := cacheFriendlyFactor (lazy_init os st).
Let sz := call_allocSize os st allocSize.
Let N := call_numTrials os st allocSize.
Let tbl0 := entry_table os st.
Let s := (search os st allocSize).1.
Let run := allocate_phys_mem os st allocSize.

Lemma call_attempted_open (t : Z) :
  call_attempted os st allocSize t = true -> fopen_pagemap os = true.
Proof. unfold call_attempted. intros H. apply andb_prop in H. tauto. Qed.

(** A trial whose verdict leaves the loop is the last one. *)
Lemma stopping_trial_is_last (t : Z) :
  call_attempted os st allocSize t = true ->
  stops (call_verdict os st allocSize t) = true ->
  trial s = t /\ last_trial N s = t.
Proof.
  intros Hat Hstop. pose proof (call_attempted_open t Hat) as Hopen.
  destruct (search_spec os st allocSize Htable Hopen) as (Hfin & HL & _).
  pose proof (proj1 (call_attempted_iff os st allocSize Htable t Hopen) Hat)
    as Ht.
  fold s N in Hfin, HL, Ht.
  destruct Hfin as (Hexit & Hrun & _). unfold last_trial in *.
  unfold call_verdict in Hstop. fold ps cff sz tbl0 in Hstop, Hrun, Hexit.
  destruct Hexit as [Hend|[Hlt Hs]].
  - rewrite Hend, Z.eqb_refl in Ht. rewrite Hend in Hrun.
    rewrite Hrun in Hstop by lia. discriminate.
  - replace (trial s =? N) with false in *
      by (symmetry; apply Z.eqb_neq; lia).
    destruct (Z.eq_dec t (trial s)) as [->|Hne]; [auto|].
    rewrite Hrun in Hstop by lia. discriminate.
Qed.

(** The slots of the trials entered hold the trials' blocks. *)
Lemma attempted_slot (t : Z) :
  call_attempted os st allocSize t = true ->
  slot (table s) t = call_block os st t /\ 0 <= t <= last_trial N s.
Proof.
  intros Hat. pose proof (call_attempted_open t Hat) as Hopen.
  destruct (search_spec os st allocSize Htable Hopen) as (Hfin & HL & _).
  pose proof (proj1 (call_attempted_iff os st allocSize Htable t Hopen) Hat)
    as Ht.
  fold s N in Hfin, HL, Ht. split; [|exact Ht].
  destruct Hfin as (_ & _ & _ & Hslots & _). apply Hslots. lia.
Qed.

(** The candidate at [error_exit], in terms of the trials entered. *)
Lemma candidate_at_exit :
  fopen_pagemap os = true ->
  (bestBlock s = -1 /\ physBlock s = 0 /\
   forall t g, call_attempted os st allocSize t = true ->
     call_verdict os st allocSize t <> Qualified g) \/
  (exists g,
     call_attempted os st allocSize (bestBlock s) = true /\
     call_verdict os st allocSize (bestBlock s) = Qualified g /\
     bestGapCount s = g /\
     physBlock s = call_block os st (bestBlock s) /\
     forall t g', call_attempted os st allocSize t = true ->
       call_verdict os st allocSize t = Qualified g' ->
       g <= g' /\ (g' = g -> bestBlock s <= t)).
Proof.
  intros Hopen.
  destruct (search_spec os st allocSize Htable Hopen) as (Hfin & HL & _).
  pose proof (fun t => call_attempted_iff os st allocSize Htable t Hopen)
    as Hiff.
  fold s N in Hfin, HL, Hiff.
  destruct Hfin as (_ & _ & _ & _ & [(Hb & Hp & Hnone)|((Hb & Hv & Hmin) & Hp)]).
  - left. repeat split; try assumption.
    intros t g Hat. apply Hnone. apply Hiff in Hat. lia.
  - right. exists (bestGapCount s). repeat split; try assumption.
    + apply Hiff. lia.
    + apply (Hmin t g'); [apply Hiff in H; lia|assumption].
    + apply (Hmin t g'); [apply Hiff in H; lia|assumption].
Qed.

(** When the call returns, the block of every trial entered, other than
    the candidate's, is unpinned and then freed. *)
Lemma call_release (i : Z) :
  fopen_pagemap os && fclose_pagemap os = false ->
  call_attempted os st allocSize i = true ->
  call_block os st i <> 0 -> i <> bestBlock s ->
  exists l1 l2, trace run = l1 ++ release (call_block os st i) sz ++ l2.
Proof.
  intros Hret Hat Hb Hne.
  destruct (attempted_slot i Hat) as [Hslot Hi].
  destruct (allocate_returns os st allocSize Hret) as [_ Htr].
  fold s N sz run in Htr.
  destruct (cleanup_releases sz (table s) (bestBlock s)
              (Z.to_nat (last_trial N s + 1)) (last_trial N s) i)
    as (pre & post & Hc); try lia.
  rewrite Hslot in Hc. rewrite Htr, Hc.
  exists ((search os st allocSize).2
          ++ (if fopen_pagemap os then [EvFclose false] else []) ++ pre), post.
  rewrite <- !app_assoc. reflexivity.
Qed.

(** When the call returns, every munlock and free is the release of the
    block of a trial entered that is not the candidate. *)
Lemma call_release_only (e : Event) :
  fopen_pagemap os && fclose_pagemap os = false ->
  In e (trace run) -> is_teardown e = true ->
  e = EvFclose false \/
  exists i, call_attempted os st allocSize i = true /\ i <> bestBlock s /\
    call_block os st i <> 0 /\ In e (release (call_block os st i) sz).
Proof.
  intros Hret Hin Htd.
  destruct (allocate_returns os st allocSize Hret) as [_ Htr].
  fold s N sz run in Htr.
  destruct (fopen_pagemap os) eqn:Hopen.
  - 
    destruct (search_spec os st allocSize Htable Hopen) as (Hfin & HL & Hev).
    fold s N in Hfin, HL. rewrite Htr, Hev in Hin.
    rewrite !in_app_iff in Hin. destruct Hin as [Hin|[Hin|Hin]].
    + exfalso. destruct Hin as [<-|Hin]; [discriminate|].
      pose proof (flat_map_no_teardown os ps cff sz tbl0
                    (seqZ 0 (last_trial N s + 1))) as Hno.
      assert (Hex : existsb is_teardown
                (flat_map (trial_events os ps cff sz tbl0)
                   (seqZ 0 (last_trial N s + 1))) = true).
      { apply existsb_exists. exists e. split; [exact Hin|exact Htd]. }
      congruence.
    + left. destruct Hin as [<-|[]]. reflexivity.
    + right.
      apply cleanup_In in Hin; [|lia].
      destruct Hin as (i & Hi & Hne & H0 & Hrel).
      assert (Hat : call_attempted os st allocSize i = true).
      { apply call_attempted_iff; [assumption..|]. fold N s. lia. }
      destruct (attempted_slot i Hat) as [Hslot _].
      rewrite Hslot in *. exists i. auto.
  - exfalso. destruct (allocate_no_pagemap os st allocSize Hopen) as [_ Htr0].
    fold run in Htr0. rewrite Htr0 in Hin.
    destruct Hin as [<-|[]]. discriminate.
Qed.
End SelectionFacts.

(** ** Heap accounting *)



Section HeapTrials.
Variable os : Env.
Variables (pgSize cff allocSize : Z).
Variable tbl0 : list Z.

Local Abbreviation blk := (block_of os tbl0).
Local Abbreviation evs := (trial_events os pgSize cff allocSize tbl0).

End HeapTrials.




(** * Statements of the specification *)

(** A trial is entered exactly when posix_memalign is called for it. *)
Lemma attempted_iff_issued (os : Env) (st : Statics) (allocSize t : Z) :
  table_ok os st ->
  call_attempted os st allocSize t = true <->
  In t (trials_issued (trace (allocate_phys_mem os st allocSize))).
Proof.
  intros Htable.
  destruct (allocate_trace_split os st allocSize) as (post & Htr & Hpost).
  destruct (fopen_pagemap os) eqn:Hopen.
  - destruct (search_spec os st allocSize Htable Hopen) as (_ & HL & Hev).
    rewrite (call_attempted_iff os st allocSize Htable t Hopen).
    rewrite Htr, Hev. unfold trials_issued.
    cbn [flat_map app]. rewrite flat_map_app.
    fold (trials_issued post). rewrite (teardown_trials_issued post Hpost).
    rewrite app_nil_r.
    fold (trials_issued
            (flat_map (call_events os st allocSize)
               (seqZ 0 (last_trial (call_numTrials os st allocSize)
                          (search os st allocSize).1 + 1)))).
    unfold call_events. rewrite trials_issued_flat_map.
    rewrite <- list_elem_of_In, elem_of_seqZ. lia.
  - destruct (allocate_no_pagemap os st allocSize Hopen) as [_ Htr0].
    rewrite Htr0. unfold call_attempted. rewrite Hopen. simpl.
    split; [discriminate|tauto].
Qed.

(** A trial whose walk is left before [allocPages] leaves the candidate
    untouched, whatever the state of the search. *)
Lemma disqualified_not_selected (os : Env) (pgSize cff allocSize : Z)
    (s : Search) (p g : Z) :
  (walk_pages cff (fread_pageFrame os (trial s))
     (Z.to_nat (allocPages pgSize allocSize)) 0 0 0).1 = WalkEnd p g ->
  p <> allocPages pgSize allocSize ->
  let s' := (trial_body os pgSize cff allocSize s).1.2 in
  bestBlock s' = bestBlock s /\ physBlock s' = physBlock s /\
  bestGapCount s' = bestGapCount s.
Proof.
  intros Hw Hp. unfold trial_body.
  assert (Hs1 : forall s1 : Search,
            s1 = match posix_memalign os (trial s) with
                 | Some q => with_table s (store (table s) (trial s) q)
                 | None => s
                 end ->
            bestBlock s1 = bestBlock s /\ physBlock s1 = physBlock s /\
            bestGapCount s1 = bestGapCount s).
  { intros s1 ->. destruct (posix_memalign os (trial s)); simpl; auto. }
  specialize (Hs1 _ eq_refl).
  destruct (_ =? 0); [exact Hs1|].
  destruct (mlock os (trial s)); [exact Hs1|].
  rewrite Hw.
  replace (p =? allocPages pgSize allocSize) with false
    by (symmetry; apply Z.eqb_neq; exact Hp).
  exact Hs1.
Qed.

(** C2.  On a power-of-two page size, with a non-zero first frame: a pair
    (prev, curr) of frame numbers is contiguous when curr = prev+1 (in the
    32-bit arithmetic of the frame numbers); otherwise it is a compatible
    gap exactly when ((prev+1) | curr) & cacheFriendlyFactor = 0, that is
    when prev+1 and curr are both multiples of cacheFriendlyFactor+1.  A
    walk without incompatible pair reads every page and counts one gap per
    compatible gap; a walk with one stops at the first, before
    [allocPages], and the trial cannot become the candidate. *)
Theorem walk_classifies_transitions (k : Z) (frames : Z -> Z) (n : nat) :
  0 <= k < 32 ->
  let cff := cacheFriendlyFactor_init (2 ^ k) in
  let f := fun p => wrap32 (frames p) in
  f 0 <> 0 ->
  (forall prev curr,
     (classify cff prev curr = Contiguous <-> curr = wrap32 (prev + 1)) /\
     (classify cff prev curr = CompatibleGap <->
        curr <> wrap32 (prev + 1) /\
        Z.land cff (Z.lor (wrap32 (prev + 1)) curr) = 0) /\
     (Z.land cff (Z.lor (wrap32 (prev + 1)) curr) = 0 <->
        (prev + 1) mod (cff + 1) = 0 /\ curr mod (cff + 1) = 0)) /\
  (forall m : nat,
     count_gaps cff f (S m) =
     count_gaps cff f m +
     match classify cff (f (Z.of_nat m)) (f (Z.of_nat m + 1)) with
     | CompatibleGap => 1
     | _ => 0
     end) /\
  ((forall i : nat, (i < n)%nat ->
      classify cff (f (Z.of_nat i)) (f (Z.of_nat i + 1)) <> Incompatible) ->
   walk_pages cff frames (S n) 0 0 0
   = (WalkEnd (Z.of_nat n + 1) (count_gaps cff f n),
      seqZ 0 (Z.of_nat n + 1))) /\
  (forall j : nat, (j < n)%nat ->
     (forall i : nat, (i < j)%nat ->
        classify cff (f (Z.of_nat i)) (f (Z.of_nat i + 1)) <> Incompatible) ->
     classify cff (f (Z.of_nat j)) (f (Z.of_nat j + 1)) = Incompatible ->
     walk_pages cff frames (S n) 0 0 0
     = (WalkEnd (Z.of_nat j + 1) (count_gaps cff f j),
        seqZ 0 (Z.of_nat j + 2)) /\
     Z.of_nat j + 1 < Z.of_nat (S n)) /\
  (forall (os : Env) (pgSize allocSize : Z) (s : Search) (p g : Z),
     (walk_pages cff (fread_pageFrame os (trial s))
        (Z.to_nat (allocPages pgSize allocSize)) 0 0 0).1 = WalkEnd p g ->
     p <> allocPages pgSize allocSize ->
     let s' := (trial_body os pgSize cff allocSize s).1.2 in
     bestBlock s' = bestBlock s /\ physBlock s' = physBlock s /\
     bestGapCount s' = bestGapCount s).
Proof.
  intros Hk cff f H0.
  split; [|split; [|split; [|split]]].
  - intros prev curr.
    destruct (classify_cases cff prev curr) as (Hc & Hg & _).
    split; [exact Hc|]. split; [exact Hg|].
    apply compatible_iff_multiples. exact Hk.
  - intros m. reflexivity.
  - intros Hok. apply walk_fully_mapped; assumption.
  - intros j Hj Hok Hbad. split; [|lia].
    apply walk_stops_at_incompatible; assumption.
  - intros os pgSize allocSize s p g.
    apply disqualified_not_selected.
Qed.

Lemma walk_classifies_transitions_witness :
  classify (cacheFriendlyFactor_init (2 ^ 12)) 255 512 = CompatibleGap /\
  walk_pages (cacheFriendlyFactor_init (2 ^ 12))
    (fread_pageFrame env_first_call 0) 256 0 0 0
  = (WalkEnd 1 0, seqZ 0 2).
Proof.
  pose proof (walk_classifies_transitions 12 (fread_pageFrame env_first_call 0)
                255 ltac:(lia) ltac:(vm_compute; discriminate))
    as (Hpair & _ & _ & Hstop & _).
  split.
  - apply (Hpair 255 512). split; [vm_compute; discriminate|reflexivity].
  - apply (Hstop 0%nat).
    + lia.
    + intros i Hi. lia.
    + reflexivity.
Defined.

(** C6.  For a 32-bit request and page size, the number of trials of a call
    is at most floor(avail/pages)*3/4 in integer arithmetic and at most
    MAX_ATTEMPT; the trials then hold at most three quarters of the
    available pages; the trials issued are 0, 1, ..., L-1 for some L within
    the budget, and the cleanup loop starts below MAX_ATTEMPT: every index
    into [blockArray] is below its capacity. *)
Theorem attempt_budget_bounded (os : Env) (st : Statics) (allocSize : Z) :
  0 < pageSize (lazy_init os st) < 2 ^ 32 ->
  0 <= allocSize < 2 ^ 32 ->
  let avail := wrap32 (sysconf_AVPHYS_PAGES os) in
  let pages := call_allocSize os st allocSize / pageSize (lazy_init os st) in
  let N := call_numTrials os st allocSize in
  0 <= N <= avail / pages * 3 / 4 /\
  N <= MAX_ATTEMPT /\
  4 * (N * pages) <= 3 * avail /\
  (0 <= sysconf_AVPHYS_PAGES os ->
   4 * (N * pages) <= 3 * sysconf_AVPHYS_PAGES os) /\
  (table_ok os st ->
   (exists L, 0 <= L <= N /\
      trials_issued (trace (allocate_phys_mem os st allocSize)) = seqZ 0 L) /\
   -1 <= last_trial N (search os st allocSize).1 < MAX_ATTEMPT).
Proof.
  intros Hps Ha avail pages N.
  pose proof (normalize_bounds _ _ Hps Ha) as Hsz.
  fold (call_allocSize os st allocSize) in Hsz.
  pose proof (wrap32_range (sysconf_AVPHYS_PAGES os)) as Hav. fold avail in Hav.
  destruct (numTrials_bounds (pageSize (lazy_init os st)) avail
              (call_allocSize os st allocSize) ltac:(lia) Hav)
    as (Hq & Hmax & Hmem).
  split; [exact Hq|]. split; [exact Hmax|]. split; [exact Hmem|].
  split.
  { intros Hnn.
    assert (avail <= sysconf_AVPHYS_PAGES os)
      by (apply Z.mod_le; lia).
    eapply Z.le_trans; [exact Hmem|lia]. }
  intros Htable.
  destruct (allocate_trace_split os st allocSize) as (post & Htr & Hpost).
  destruct (fopen_pagemap os) eqn:Hopen.
  - destruct (search_spec os st allocSize Htable Hopen) as (_ & HL & Hev).
    split.
    + eexists. split; [exact HL|].
      rewrite Htr, Hev. unfold trials_issued.
      cbn [flat_map app]. rewrite flat_map_app.
      fold (trials_issued post). rewrite (teardown_trials_issued post Hpost).
      rewrite app_nil_r. apply trials_issued_flat_map.
    + assert (HN : 0 <= call_numTrials os st allocSize <= MAX_ATTEMPT)
        by apply numTrials_of_range.
      subst N. lia.
  - destruct (allocate_no_pagemap os st allocSize Hopen) as [_ Htr0].
    split.
    + exists 0. split; [split; [lia|exact (proj1 Hq)]|].
      rewrite Htr0. reflexivity.
    + unfold search. rewrite Hopen. unfold last_trial. cbn [fst trial].
      assert (MAX_ATTEMPT = 1024) by reflexivity.
      destruct (0 =? N); lia.
Qed.

Lemma attempt_budget_bounded_witness :
  call_numTrials env_abort fresh_statics 10 = 3 /\
  4 * (call_numTrials env_abort fresh_statics 10 * 256) <= 3 * 1024.
Proof.
  pose proof (attempt_budget_bounded env_abort fresh_statics 10
                ltac:(vm_compute; split; reflexivity) ltac:(lia))
    as (_ & _ & Hmem & _).
  split; [reflexivity|exact Hmem].
Defined.

(** Without wrap-around in the product, the budget is 0 exactly when fewer
    than two trials fit in the available pages. *)
Lemma zero_budget_iff (ps avail a : Z) :
  0 < ps <= a -> 0 <= avail < 2 ^ 32 ->
  avail / (a / ps) * 3 < 2 ^ 32 ->
  numTrials_of ps avail a = 0 <-> avail / (a / ps) <= 1.
Proof.
  intros Hp Hv Hnowrap. unfold numTrials_of, attempt_quota.
  assert (Hpages : 1 <= a / ps) by (apply Z.div_le_lower_bound; lia).
  assert (Hq : 0 <= avail / (a / ps)) by (apply Z.div_pos; lia).
  set (q := avail / (a / ps)) in *.
  rewrite (wrap32_small (q * 3)) by lia.
  assert (Hd : 0 <= q * 3 / 4 < 2 ^ 31).
  { split; [apply Z.div_pos; lia|].
    apply Z.div_lt_upper_bound; [lia|].
    change (2 ^ 31) with 2147483648. change (2 ^ 32) with 4294967296 in *.
    lia. }
  rewrite to_int_small by exact Hd.
  assert (HM : MAX_ATTEMPT = 1024) by reflexivity.
  pose proof (Z.div_mod (q * 3) 4 ltac:(lia)) as Hdm.
  pose proof (Z.mod_pos_bound (q * 3) 4 ltac:(lia)) as Hmb.
  destruct (Z.gtb_spec (q * 3 / 4) MAX_ATTEMPT); lia.
Qed.

(** C8.  A call whose attempt budget is 0 calls neither the allocator nor
    the pinning primitive, and, the stream being closed without error,
    returns null; its only calls are the fopen and the fclose. *)
Theorem zero_budget_returns_null (os : Env) (st : Statics) (allocSize : Z) :
  call_numTrials os st allocSize = 0 ->
  let run := allocate_phys_mem os st allocSize in
  existsb is_alloc_or_pin (trace run) = false /\
  (fopen_pagemap os && fclose_pagemap os = false ->
   outcome run = Return 0 /\
   trace run = EvFopen (fopen_pagemap os)
               :: (if fopen_pagemap os then [EvFclose false] else [])).
Proof.
  intros HN run. subst run. unfold allocate_phys_mem, search.
  rewrite HN. cbn [Z.to_nat trial_loop].
  destruct (fopen_pagemap os), (fclose_pagemap os); cbn;
    (split; [reflexivity|]); intros H; try discriminate;
    split; reflexivity.
Qed.

Lemma zero_budget_returns_null_witness :
  outcome (allocate_phys_mem env_no_budget fresh_statics 10) = Return 0 /\
  trace (allocate_phys_mem env_no_budget fresh_statics 10)
  = [EvFopen true; EvFclose false].
Proof.
  apply (zero_budget_returns_null env_no_budget fresh_statics 10
           ltac:(reflexivity)).
  reflexivity.
Defined.

(** C9.  [free_phys_mem] calls munlock and then free on the region, and
    returns nonzero exactly when munlock returned nonzero.  On a null
    region the free does nothing: the calls are defined on every heap and
    leave the live blocks as they were. *)
Theorem free_phys_mem_reports_munlock (os : Env) (physBlock allocSize : Z) :
  (free_phys_mem os physBlock allocSize).2
  = [EvMunlock physBlock allocSize; EvFree physBlock] /\
  ((free_phys_mem os physBlock allocSize).1 <> 0 <->
   munlock os physBlock allocSize <> 0) /\
  (forall h, exists h',
     heap_run h (free_phys_mem os 0 allocSize).2 = Some h' /\
     live h' = live h) /\
  (forall h, physBlock ∈ live h -> physBlock <> 0 ->
     heap_run h (free_phys_mem os physBlock allocSize).2
     = Some {| live := live h ∖ {[physBlock]};
               pinned := pinned h ∖ {[physBlock]} |}).
Proof.
  split; [reflexivity|]. split; [reflexivity|]. split.
  - intros h. eexists. split; reflexivity.
  - intros h Hlive Hnz. unfold free_phys_mem. cbn [snd heap_run heap_event].
    replace (physBlock =? 0) with false
      by (symmetry; apply Z.eqb_neq; exact Hnz).
    cbn [live pinned]. rewrite decide_True by exact Hlive. reflexivity.
Qed.

Lemma free_phys_mem_reports_munlock_witness :
  exists h',
    heap_run {| live := {[2097152]}; pinned := {[2097152]} |}
      (free_phys_mem env_abort 2097152 1048576).2 = Some h'.
Proof.
  destruct (free_phys_mem_reports_munlock env_abort 2097152 1048576)
    as (_ & _ & _ & Hlive).
  eexists.
  apply (Hlive {| live := {[2097152]}; pinned := {[2097152]} |}).
  - vm_compute. reflexivity.
  - lia.
Defined.

(** C3.  When a trial that was entered qualifies, the candidate held at
    the end of the search is a qualifying trial [b] whose gap count is
    least among the qualifying trials entered, and [b] is the earliest
    trial with that gap count; when the call returns, it returns the block
    of [b], which is not null. *)
Theorem best_candidate_returned (os : Env) (st : Statics)
    (allocSize t0 g0 : Z) :
  table_ok os st ->
  call_attempted os st allocSize t0 = true ->
  call_verdict os st allocSize t0 = Qualified g0 ->
  exists b g,
    bestBlock (search os st allocSize).1 = b /\
    bestGapCount (search os st allocSize).1 = g /\
    physBlock (search os st allocSize).1 = call_block os st b /\
    call_attempted os st allocSize b = true /\
    call_verdict os st allocSize b = Qualified g /\
    call_block os st b <> 0 /\
    (forall t g', call_attempted os st allocSize t = true ->
       call_verdict os st allocSize t = Qualified g' ->
       g <= g' /\ (g' = g -> b <= t)) /\
    (fclose_pagemap os = false ->
     outcome (allocate_phys_mem os st allocSize)
     = Return (call_block os st b)).
Proof.
  intros Htable Hat Hq.
  pose proof (call_attempted_open os st allocSize t0 Hat) as Hopen.
  destruct (candidate_at_exit os st allocSize Htable Hopen)
    as [(_ & _ & Hnone)|(g & Hb & Hv & Hg & Hp & Hmin)].
  - exfalso. exact (Hnone t0 g0 Hat Hq).
  - exists (bestBlock (search os st allocSize).1), g.
    split; [reflexivity|]. split; [exact Hg|]. split; [exact Hp|].
    split; [exact Hb|]. split; [exact Hv|]. split.
    { unfold call_verdict in Hv.
      apply verdict_qualified_block in Hv. apply Hv. }
    split; [exact Hmin|].
    intros Hclose.
    assert (Hret : fopen_pagemap os && fclose_pagemap os = false)
      by (rewrite Hclose; apply andb_false_r).
    destruct (allocate_returns os st allocSize Hret) as [Hout _].
    rewrite Hout, Hp. reflexivity.
Qed.

Lemma best_candidate_returned_witness :
  exists b,
    bestBlock (search env_perfect fresh_statics 10).1 = b /\
    call_verdict env_perfect fresh_statics 10 b = Qualified 0 /\
    outcome (allocate_phys_mem env_perfect fresh_statics 10)
    = Return (call_block env_perfect fresh_statics b).
Proof.
  destruct (best_candidate_returned env_perfect fresh_statics 10 0 1)
    as (b & g & Hb & Hg & _ & _ & Hv & _ & _ & Hout).
  - vm_compute. reflexivity.
  - vm_compute. reflexivity.
  - vm_compute. reflexivity.
  - exists b. split; [exact Hb|]. split.
    + rewrite Hv. f_equal. rewrite <- Hg. vm_compute. reflexivity.
    + apply Hout. reflexivity.
Defined.

(** C7.  A trial that is entered and qualifies with gap count 0 becomes the
    candidate and is the last trial: the calls of the run are those of the
    trials up to it, followed by teardown calls only (fclose, munlock,
    free, exit), so that no allocation, pinning or pagemap read follows. *)
Theorem perfect_trial_ends_search (os : Env) (st : Statics)
    (allocSize t : Z) :
  table_ok os st ->
  call_attempted os st allocSize t = true ->
  call_verdict os st allocSize t = Qualified 0 ->
  let s := (search os st allocSize).1 in
  let run := allocate_phys_mem os st allocSize in
  bestBlock s = t /\ physBlock s = call_block os st t /\
  call_block os st t <> 0 /\ trial s = t /\
  (exists post,
     trace run
     = EvFopen true
       :: flat_map (call_events os st allocSize) (seqZ 0 (t + 1)) ++ post /\
     forallb is_teardown post = true) /\
  (fclose_pagemap os = false -> outcome run = Return (call_block os st t)).
Proof.
  intros Htable Hat Hq s run.
  pose proof (call_attempted_open os st allocSize t Hat) as Hopen.
  destruct (stopping_trial_is_last os st allocSize Htable t Hat)
    as [Ht Hlast]; [rewrite Hq; reflexivity|].
  fold s in Ht, Hlast.
  pose proof Hq as Hblock. unfold call_verdict in Hblock.
  apply verdict_qualified_block in Hblock. destruct Hblock as [Hnz _].
  fold (call_block os st t) in Hnz.
  assert (Hbest : bestBlock s = t /\ physBlock s = call_block os st t).
  { destruct (candidate_at_exit os st allocSize Htable Hopen)
      as [(_ & _ & Hnone)|(g & Hb & Hv & _ & Hp & Hmin)].
    - exfalso. exact (Hnone t 0 Hat Hq).
    - fold s in Hb, Hv, Hp, Hmin.
      destruct (Hmin t 0 Hat Hq) as [Hg Htie].
      pose proof Hv as Hg0. unfold call_verdict in Hg0.
      apply verdict_gaps_nonneg in Hg0.
      assert (g = 0) by lia. subst g.
      destruct (stopping_trial_is_last os st allocSize Htable (bestBlock s) Hb)
        as [Hbt _]; [rewrite Hv; reflexivity|].
      fold s in Hbt. split; [congruence|]. rewrite Hp. congruence. }
  destruct Hbest as [Hb Hp].
  split; [exact Hb|]. split; [exact Hp|]. split; [exact Hnz|].
  split; [exact Ht|]. split.
  - destruct (allocate_trace_split os st allocSize) as (post & Htr & Hpost).
    destruct (search_spec os st allocSize Htable Hopen) as (_ & _ & Hev).
    fold s in Hev. rewrite Hlast in Hev.
    exists post. split; [|exact Hpost].
    subst run. rewrite Htr, Hev. reflexivity.
  - intros Hclose.
    assert (Hret : fopen_pagemap os && fclose_pagemap os = false)
      by (rewrite Hclose; apply andb_false_r).
    destruct (allocate_returns os st allocSize Hret) as [Hout _].
    subst run. rewrite Hout. fold s. rewrite Hp. reflexivity.
Qed.

Lemma perfect_trial_ends_search_witness :
  bestBlock (search env_perfect fresh_statics 10).1 = 1 /\
  trials_issued (trace (allocate_phys_mem env_perfect fresh_statics 10))
  = [0; 1] /\
  outcome (allocate_phys_mem env_perfect fresh_statics 10) = Return 4194304.
Proof.
  destruct (perfect_trial_ends_search env_perfect fresh_statics 10 1)
    as (Hb & _ & _ & _ & _ & Hout).
  - vm_compute. reflexivity.
  - vm_compute. reflexivity.
  - vm_compute. reflexivity.
  - split; [exact Hb|]. split; [vm_compute; reflexivity|].
    apply Hout. reflexivity.
Defined.

(** ** Abort on a zero frame number *)




Lemma call_block_stored (os : Env) (st : Statics) (t p : Z) :
  posix_memalign os t = Some p -> call_block os st t = p.
Proof. unfold call_block, block_of. intros ->. reflexivity. Qed.






(** ** Stale slots *)

(** When every posix_memalign of the trials entered stored a pointer, the
    cleanup loop unpins and frees only pointers stored during this call. *)
Lemma cleanup_frees_stored_blocks (os : Env) (st : Statics)
    (allocSize : Z) (e : Event) :
  table_ok os st ->
  fopen_pagemap os && fclose_pagemap os = false ->
  (forall t, call_attempted os st allocSize t = true ->
     posix_memalign os t <> None) ->
  In e (trace (allocate_phys_mem os st allocSize)) ->
  is_teardown e = true ->
  e = EvFclose false \/
  exists t p, call_attempted os st allocSize t = true /\
    posix_memalign os t = Some p /\
    In e (release p (call_allocSize os st allocSize)).
Proof.
  intros Htable Hret Hstore Hin Htd.
  destruct (call_release_only os st allocSize Htable e Hret Hin Htd)
    as [->|(i & Hat & _ & _ & Hrel)]; [left; reflexivity|right].
  destruct (posix_memalign os i) as [p|] eqn:Hp;
    [|exfalso; exact (Hstore i Hat Hp)].
  exists i, p. rewrite (call_block_stored os st i p Hp) in Hrel. auto.
Qed.

(** C10 (the code breaks the claim).  A first call issues three trials and
    frees their three blocks, which stay in [blockArray].  In a second call
    posix_memalign fails at trial 1 and leaves [blockArray[1]] as it was:
    the slot still holds the block freed by the first call, it passes the
    null test, and the cleanup loop unpins and frees it a second time,
    which the allocator's contract leaves undefined. *)
Theorem stale_slot_freed_again :
  let first := allocate_phys_mem env_first_call fresh_statics 10 in
  let second := allocate_phys_mem env_second_call (statics first) 10 in
  outcome first = Return 0 /\
  In (EvFree 4194304) (trace first) /\
  heap_run empty_heap (trace first) = Some empty_heap /\
  slot (blockArray (statics first)) 1 = 4194304 /\
  posix_memalign env_second_call 1 = None /\
  (forall t, posix_memalign env_second_call t <> Some 4194304) /\
  trials_issued (trace second) = [0; 1] /\
  slot (table (search env_second_call (statics first) 10).1) 1 = 4194304 /\
  In (EvMunlock 4194304 1048576) (trace second) /\
  In (EvFree 4194304) (trace second) /\
  heap_run empty_heap (trace first ++ trace second) = None.
Proof.
  intros first second.
  split; [vm_compute; reflexivity|].
  split; [vm_compute; tauto|].
  split; [vm_compute; reflexivity|].
  split; [vm_compute; reflexivity|].
  split; [reflexivity|].
  split.
  { intros t. simpl. destruct (t =? 0); discriminate. }
  split; [vm_compute; reflexivity|].
  split; [vm_compute; reflexivity|].
  split; [vm_compute; tauto|].
  split; [vm_compute; tauto|].
  vm_compute. reflexivity.
Qed.

Example normalize_1MiB : normalize_allocSize 4096 1048576 = 1048576.
Proof. reflexivity. Qed.

Example normalize_10 : normalize_allocSize 4096 10 = 1048576.
Proof. reflexivity. Qed.

Example cff_4096 : cacheFriendlyFactor_init 4096 = 255.
Proof. reflexivity. Qed.

(** The alignment hint covers the cache granularity (line 40). *)
Example block_align_covers_granularity : CACHE_GRANULARITY <= BLOCK_ALIGN.
Proof. discriminate. Qed.


(** * Further properties of the code *)

(** ** Size normalisation *)

Lemma page_ceiling_ge (p s : Z) : 0 < p -> s <= page_ceiling p s.
Proof.
  intros Hp. unfold page_ceiling.
  pose proof (Z.mul_succ_div_gt (s + p - 1) p Hp) as H.
  rewrite Z.mul_comm. lia.
Qed.

(** X1.  Where the rounding of line 92 does not wrap (requests up to
    2^32 - pageSize), the size used by the call is the largest of the
    request rounded up to the page size, the cache granularity and the
    page size; in particular it is never below the request. *)
Theorem normalize_is_max (k s : Z) :
  0 <= k < 32 -> 0 <= s <= 2 ^ 32 - 2 ^ k ->
  normalize_allocSize (2 ^ k) s
  = Z.max (page_ceiling (2 ^ k) s) (Z.max CACHE_GRANULARITY (2 ^ k)) /\
  s <= normalize_allocSize (2 ^ k) s.
Proof.
  intros Hk Hs. pose proof (pow2_range k Hk) as Hp.
  pose proof (page_ceiling_ge (2 ^ k) s ltac:(lia)) as Hge.
  assert (E : normalize_allocSize (2 ^ k) s
              = Z.max (page_ceiling (2 ^ k) s)
                  (Z.max CACHE_GRANULARITY (2 ^ k))).
  { unfold normalize_allocSize.
    rewrite round_to_page_ceiling by assumption.
    set (c := page_ceiling (2 ^ k) s).
    destruct (Z.ltb_spec c CACHE_GRANULARITY);
      [destruct (Z.ltb_spec CACHE_GRANULARITY (2 ^ k))
      |destruct (Z.ltb_spec c (2 ^ k))]; lia. }
  split; [exact E|]. rewrite E. lia.
Qed.

Lemma normalize_is_max_witness :
  normalize_allocSize (2 ^ 12) 3000000
  = Z.max (page_ceiling (2 ^ 12) 3000000) (Z.max CACHE_GRANULARITY (2 ^ 12)) /\
  3000000 <= normalize_allocSize (2 ^ 12) 3000000.
Proof. apply (normalize_is_max 12 3000000); lia. Defined.

(** X2.  Normalising is idempotent: a size the call has normalised is left
    as it is when it is passed in again, whatever the first request was. *)
Theorem normalize_idempotent (k s : Z) :
  0 <= k < 32 -> 0 <= s < 2 ^ 32 ->
  normalize_allocSize (2 ^ k) (normalize_allocSize (2 ^ k) s)
  = normalize_allocSize (2 ^ k) s.
Proof.
  intros Hk Hs.
  destruct (normalize_multiple k s Hk Hs) as (Hr & Hm & Hcg & Hps).
  set (n := normalize_allocSize (2 ^ k) s) in *.
  unfold normalize_allocSize at 1.
  rewrite round_to_page_pow2 by lia.
  rewrite Hm. cbn [Z.eqb].
  destruct (Z.ltb_spec n CACHE_GRANULARITY); [lia|].
  destruct (Z.ltb_spec n (2 ^ k)); [lia|reflexivity].
Qed.

Lemma normalize_idempotent_witness :
  normalize_allocSize (2 ^ 12) (normalize_allocSize (2 ^ 12) 4294967295)
  = normalize_allocSize (2 ^ 12) 4294967295.
Proof. apply (normalize_idempotent 12 4294967295); lia. Defined.

(** X3.  For a page size of at least two bytes the page loop walks exactly
    the block: [allocPages] is positive, fits an [int], and
    [allocPages * pageSize] is the normalised size. *)
Theorem walk_covers_block (k s : Z) :
  1 <= k < 32 -> 0 <= s < 2 ^ 32 ->
  let a := normalize_allocSize (2 ^ k) s in
  1 <= allocPages (2 ^ k) a < 2 ^ 31 /\
  allocPages (2 ^ k) a * 2 ^ k = a.
Proof.
  intros Hk Hs a.
  destruct (normalize_multiple k s ltac:(lia) Hs) as (Hr & Hm & _ & Hps).
  fold a in Hr, Hm, Hps.
  pose proof (pow2_range k ltac:(lia)) as Hp.
  assert (H2 : 2 <= 2 ^ k).
  { change 2 with (2 ^ 1) at 1. apply Z.pow_le_mono_r; lia. }
  assert (Hq : a = 2 ^ k * (a / 2 ^ k)).
  { apply Z.div_exact; lia. }
  assert (Hq1 : 1 <= a / 2 ^ k) by (apply Z.div_le_lower_bound; lia).
  assert (Hq2 : a / 2 ^ k < 2 ^ 31).
  { apply Z.div_lt_upper_bound; [lia|].
    change (2 ^ 32) with (2 * 2 ^ 31) in Hr. nia. }
  unfold allocPages. rewrite to_int_small by lia. lia.
Qed.

Lemma walk_covers_block_witness :
  allocPages (2 ^ 12) (normalize_allocSize (2 ^ 12) 10) * 2 ^ 12
  = normalize_allocSize (2 ^ 12) 10.
Proof. apply (walk_covers_block 12 10); lia. Defined.

(** X4.  The mask and the page size fit the cache granularity: for pages
    of at most 512 KiB a block of [cacheFriendlyFactor + 1] pages is
    exactly CACHE_GRANULARITY bytes; for larger pages up to 2^30 the mask
    is 1; and for a page of 2^31 bytes the product [2*pageSize] of line 80
    wraps to 0, which makes the mask all ones. *)
Theorem mask_spans_granularity (k : Z) :
  0 <= k < 32 ->
  let cff := cacheFriendlyFactor_init (2 ^ k) in
  (k <= 19 -> (cff + 1) * 2 ^ k = CACHE_GRANULARITY) /\
  (20 <= k <= 30 -> cff = 1) /\
  (k = 31 -> cff = 2 ^ 32 - 1).
Proof.
  intros Hk cff. subst cff.
  assert (Hall : forallb (fun k =>
            let c := cacheFriendlyFactor_init (2 ^ k) in
            if k <=? 19 then (c + 1) * 2 ^ k =? CACHE_GRANULARITY
            else if k <=? 30 then c =? 1 else c =? 2 ^ 32 - 1)
          (seqZ 0 32) = true) by (vm_compute; reflexivity).
  rewrite forallb_forall in Hall.
  assert (Hin : In k (seqZ 0 32))
    by (apply list_elem_of_In, elem_of_seqZ; lia).
  apply Hall in Hin. cbv zeta in Hin.
  destruct (Z.leb_spec k 19) as [H19|H19].
  - apply Z.eqb_eq in Hin.
    split; [intros _; exact Hin|]. split; intros; lia.
  - destruct (Z.leb_spec k 30) as [H30|H30]; apply Z.eqb_eq in Hin.
    + split; [intros; lia|]. split; [intros _; exact Hin|intros; lia].
    + split; [intros; lia|]. split; [intros; lia|intros _; exact Hin].
Qed.

Lemma mask_spans_granularity_witness :
  (cacheFriendlyFactor_init (2 ^ 12) + 1) * 2 ^ 12 = CACHE_GRANULARITY.
Proof.
  destruct (mask_spans_granularity 12 ltac:(lia)) as (H & _).
  apply H. lia.
Defined.

(** ** Attempt budget *)

(** X5.  Where the product of line 104 does not wrap, the budget is
    floor(avail/pages)*3/4 capped at MAX_ATTEMPT, and it is positive
    exactly when two trials fit in the available pages: with room for a
    single trial no trial is made. *)
Theorem budget_needs_room_for_two (ps avail a : Z) :
  0 < ps <= a -> 0 <= avail < 2 ^ 32 ->
  avail / (a / ps) * 3 < 2 ^ 32 ->
  numTrials_of ps avail a = Z.min MAX_ATTEMPT (avail / (a / ps) * 3 / 4) /\
  (1 <= numTrials_of ps avail a <-> 2 * (a / ps) <= avail).
Proof.
  intros Hp Hv Hnowrap.
  assert (Hpages : 1 <= a / ps) by (apply Z.div_le_lower_bound; lia).
  assert (Hq : 0 <= avail / (a / ps)) by (apply Z.div_pos; lia).
  pose proof (zero_budget_iff ps avail a Hp Hv Hnowrap) as Hz.
  pose proof (numTrials_of_range ps avail a) as Hr.
  split.
  - unfold numTrials_of, attempt_quota.
    rewrite (wrap32_small (avail / (a / ps) * 3)) by lia.
    assert (Hd : 0 <= avail / (a / ps) * 3 / 4 < 2 ^ 31).
    { split; [apply Z.div_pos; lia|].
      apply Z.div_lt_upper_bound; [lia|].
      change (2 ^ 31) with 2147483648. change (2 ^ 32) with 4294967296 in *.
      lia. }
    rewrite to_int_small by exact Hd.
    destruct (Z.gtb_spec (avail / (a / ps) * 3 / 4) MAX_ATTEMPT); lia.
  - assert (Hiff : avail / (a / ps) <= 1 <-> avail < 2 * (a / ps)).
    { split; intros H.
      - apply Z.nle_gt. intros Hc.
        assert (2 <= avail / (a / ps))
          by (apply Z.div_le_lower_bound; lia). lia.
      - assert (avail / (a / ps) < 2)
          by (apply Z.div_lt_upper_bound; lia). lia. }
    split; intros H.
    + apply Z.nlt_ge. intros Hc. apply Hiff, Hz in Hc. lia.
    + destruct (Z.eq_dec (numTrials_of ps avail a) 0) as [E|E]; [|lia].
      apply Hz, Hiff in E. lia.
Qed.

Lemma budget_needs_room_for_two_witness :
  numTrials_of 4096 511 1048576 = Z.min MAX_ATTEMPT (511 / 256 * 3 / 4) /\
  (1 <= numTrials_of 4096 511 1048576 <-> 2 * (1048576 / 4096) <= 511).
Proof.
  apply (budget_needs_room_for_two 4096 511 1048576).
  - lia.
  - lia.
  - vm_compute. reflexivity.
Defined.

(** ** The page walk, read backwards *)

Section WalkConverse.
Variables (cff : Z) (frames : Z -> Z).
Let f (p : Z) : Z := wrap32 (frames p).

Lemma first_incompatible (n : nat) :
  (forall i : nat, (i < n)%nat ->
     classify cff (f (Z.of_nat i)) (f (Z.of_nat i + 1)) <> Incompatible) \/
  (exists j : nat, (j < n)%nat /\
     (forall i : nat, (i < j)%nat ->
        classify cff (f (Z.of_nat i)) (f (Z.of_nat i + 1)) <> Incompatible) /\
     classify cff (f (Z.of_nat j)) (f (Z.of_nat j + 1)) = Incompatible).
Proof.
  induction n as [|n IH].
  - left. intros i Hi. lia.
  - destruct IH as [Hok|(j & Hj & Hbefore & Hbad)].
    + destruct (classify cff (f (Z.of_nat n)) (f (Z.of_nat n + 1))) eqn:E.
      * left. intros i Hi.
        destruct (Nat.eq_dec i n) as [->|Hne];
          [rewrite E; discriminate|apply Hok; lia].
      * left. intros i Hi.
        destruct (Nat.eq_dec i n) as [->|Hne];
          [rewrite E; discriminate|apply Hok; lia].
      * right. exists n. split; [lia|]. split; [exact Hok|exact E].
    + right. exists j. split; [lia|]. split; assumption.
Qed.

Lemma count_gaps_le (m : nat) : count_gaps cff f m <= Z.of_nat m.
Proof.
  induction m as [|m IH]; [simpl; lia|].
  cbn [count_gaps]. destruct (classify _ _ _); lia.
Qed.

End WalkConverse.

(** X6.  The page loop over [n+1] pages runs to the end, with gap count
    [g], exactly when the first frame number is not 0, no transition is
    incompatible, and [g] is the number of compatible gaps; [g] is then at
    most [n], one less than the number of pages. *)
Theorem walk_reaches_end_iff (cff : Z) (frames : Z -> Z) (n : nat) (g : Z) :
  let f := fun p => wrap32 (frames p) in
  (walk_pages cff frames (S n) 0 0 0).1 = WalkEnd (Z.of_nat n + 1) g <->
  f 0 <> 0 /\
  (forall i : nat, (i < n)%nat ->
     classify cff (f (Z.of_nat i)) (f (Z.of_nat i + 1)) <> Incompatible) /\
  g = count_gaps cff f n /\ 0 <= g <= Z.of_nat n.
Proof.
  intros f. split.
  - intros Hw.
    destruct (Z.eq_dec (f 0) 0) as [H0|H0].
    { rewrite (walk_first_frame_zero cff frames n H0) in Hw. discriminate. }
    destruct (first_incompatible cff frames n)
      as [Hok|(j & Hj & Hbefore & Hbad)].
    + rewrite (walk_fully_mapped cff frames n H0 Hok) in Hw.
      cbn [fst] in Hw. injection Hw as <-.
      repeat split; try assumption.
      * apply count_gaps_nonneg.
      * apply count_gaps_le.
    + rewrite (walk_stops_at_incompatible cff frames n j H0 Hj Hbefore Hbad)
        in Hw.
      cbn [fst] in Hw. injection Hw as Hp _. lia.
  - intros (H0 & Hok & -> & _).
    rewrite (walk_fully_mapped cff frames n H0 Hok). reflexivity.
Qed.


(** ** Failure paths of a call *)



Lemma verdict_alloc_failed (os : Env) (pgSize cff allocSize : Z)
    (tbl0 : list Z) (t : Z) :
  verdict os pgSize cff allocSize tbl0 t = AllocFailed <->
  block_of os tbl0 t = 0.
Proof.
  unfold verdict.
  destruct (Z.eqb_spec (block_of os tbl0 t) 0) as [E|E];
    [tauto|].
  split; [|contradiction].
  destruct (mlock os t); [discriminate|].
  destruct (walk_of os pgSize cff allocSize t).1 as [p g|];
    [destruct (p =? _)|]; discriminate.
Qed.

Lemma verdict_pin_failed (os : Env) (pgSize cff allocSize : Z)
    (tbl0 : list Z) (t : Z) :
  verdict os pgSize cff allocSize tbl0 t = PinFailed <->
  block_of os tbl0 t <> 0 /\ mlock os t = true.
Proof.
  unfold verdict.
  destruct (Z.eqb_spec (block_of os tbl0 t) 0) as [E|E];
    [split; [discriminate|tauto]|].
  destruct (mlock os t); [tauto|].
  split; [|intros [_ H]; discriminate H].
  destruct (walk_of os pgSize cff allocSize t).1 as [p g|];
    [destruct (p =? _)|]; discriminate.
Qed.

Lemma call_trials_issued (os : Env) (st : Statics) (allocSize : Z) :
  table_ok os st -> fopen_pagemap os = true ->
  trials_issued (trace (allocate_phys_mem os st allocSize))
  = seqZ 0 (last_trial (call_numTrials os st allocSize)
              (search os st allocSize).1 + 1).
Proof.
  intros Htable Hopen.
  destruct (allocate_trace_split os st allocSize) as (post & Htr & Hpost).
  destruct (search_spec os st allocSize Htable Hopen) as (_ & _ & Hev).
  rewrite Htr, Hev. unfold trials_issued.
  cbn [flat_map app]. rewrite flat_map_app.
  fold (trials_issued post). rewrite (teardown_trials_issued post Hpost).
  rewrite app_nil_r. apply trials_issued_flat_map.
Qed.

(** X9.  A trial whose posix_memalign leaves a null slot, or whose mlock
    fails, is the last trial issued and is not the candidate.  After the
    null slot the trial makes no further call; after the failed mlock it
    makes none either, and its block is unpinned and freed by the cleanup
    loop when the call returns. *)
Theorem allocator_failure_stops_search (os : Env) (st : Statics)
    (allocSize t : Z) :
  table_ok os st ->
  call_attempted os st allocSize t = true ->
  call_verdict os st allocSize t = AllocFailed \/
  call_verdict os st allocSize t = PinFailed ->
  let s := (search os st allocSize).1 in
  let run := allocate_phys_mem os st allocSize in
  let sz := call_allocSize os st allocSize in
  trial s = t /\
  trials_issued (trace run) = seqZ 0 (t + 1) /\
  bestBlock s <> t /\
  (call_verdict os st allocSize t = AllocFailed ->
   call_block os st t = 0 /\
   call_events os st allocSize t = [EvMemalign t (posix_memalign os t)]) /\
  (call_verdict os st allocSize t = PinFailed ->
   call_block os st t <> 0 /\
   call_events os st allocSize t
   = [EvMemalign t (posix_memalign os t);
      EvMlock (call_block os st t) sz true] /\
   (fclose_pagemap os = false ->
    exists l1 l2, trace run = l1 ++ release (call_block os st t) sz ++ l2)).
Proof.
  intros Htable Hat Hv s run sz.
  pose proof (call_attempted_open os st allocSize t Hat) as Hopen.
  destruct (stopping_trial_is_last os st allocSize Htable t Hat)
    as [Ht Hlast]; [destruct Hv as [-> | ->]; reflexivity|].
  fold s in Ht, Hlast.
  assert (Hne : bestBlock s <> t).
  { destruct (candidate_at_exit os st allocSize Htable Hopen)
      as [(Hb & _)|(g & _ & Hq & _)].
    - fold s in Hb.
      apply (call_attempted_iff os st allocSize Htable t Hopen) in Hat. lia.
    - fold s in Hq. intros E. rewrite E in Hq. destruct Hv; congruence. }
  split; [exact Ht|]. split.
  { subst run. rewrite (call_trials_issued os st allocSize Htable Hopen).
    fold s. rewrite Hlast. reflexivity. }
  split; [exact Hne|]. split.
  - intros Ha. unfold call_verdict in Ha.
    apply verdict_alloc_failed in Ha. fold (call_block os st t) in Ha.
    split; [exact Ha|].
    unfold call_events, trial_events. fold (call_block os st t).
    rewrite Ha. reflexivity.
  - intros Hp. unfold call_verdict in Hp.
    apply verdict_pin_failed in Hp. fold (call_block os st t) in Hp.
    destruct Hp as [Hnz Hm].
    split; [exact Hnz|]. split.
    + unfold call_events, trial_events. fold (call_block os st t).
      replace (call_block os st t =? 0) with false
        by (symmetry; apply Z.eqb_neq; exact Hnz).
      rewrite Hm. reflexivity.
    + intros Hclose.
      assert (Hret : fopen_pagemap os && fclose_pagemap os = false)
        by (rewrite Hclose; apply andb_false_r).
      apply (call_release os st allocSize Htable t Hret Hat Hnz).
      intros E. apply Hne. symmetry. exact E.
Qed.

Lemma allocator_failure_stops_search_witness :
  trials_issued (trace (allocate_phys_mem env_pin_fails fresh_statics 10))
  = seqZ 0 (1 + 1) /\
  exists l1 l2,
    trace (allocate_phys_mem env_pin_fails fresh_statics 10)
    = l1 ++ release (call_block env_pin_fails fresh_statics 1)
              (call_allocSize env_pin_fails fresh_statics 10) ++ l2.
Proof.
  destruct (allocator_failure_stops_search env_pin_fails fresh_statics 10 1)
    as (_ & Hissued & _ & _ & Hpin).
  - vm_compute. reflexivity.
  - vm_compute. reflexivity.
  - right. vm_compute. reflexivity.
  - split; [exact Hissued|].
    destruct Hpin as (_ & _ & Hrel); [vm_compute; reflexivity|].
    apply Hrel. reflexivity.
Defined.

(** X10.  A call that returns gives null exactly when no trial it entered
    qualified; a non-null result is the block of a trial that was entered,
    pinned without error and walked to its last page. *)
Theorem returns_null_iff_none_qualifies (os : Env) (st : Statics)
    (allocSize : Z) :
  table_ok os st ->
  fopen_pagemap os && fclose_pagemap os = false ->
  let run := allocate_phys_mem os st allocSize in
  (outcome run = Return 0 <->
   forall t g, call_attempted os st allocSize t = true ->
     call_verdict os st allocSize t <> Qualified g) /\
  (forall p, outcome run = Return p -> p <> 0 ->
   exists t g,
     call_attempted os st allocSize t = true /\
     call_verdict os st allocSize t = Qualified g /\
     p = call_block os st t /\
     In (EvMlock p (call_allocSize os st allocSize) false) (trace run)).
Proof.
  intros Htable Hret run.
  destruct (allocate_returns os st allocSize Hret) as [Hout Htr].
  fold run in Hout, Htr.
  destruct (fopen_pagemap os) eqn:Hopen.
  2:{ destruct (allocate_no_pagemap os st allocSize Hopen) as [Hout0 _].
      fold run in Hout0. split.
      - split; [|intros _; exact Hout0].
        intros _ t g Hat. unfold call_attempted in Hat.
        rewrite Hopen in Hat. discriminate.
      - intros p Hp Hnz. rewrite Hout0 in Hp. congruence. }
  destruct (candidate_at_exit os st allocSize Htable Hopen)
    as [(Hb & Hp0 & Hnone)|(g & Hat & Hq & _ & Hp & _)].
  - split.
    + split; [intros _; exact Hnone|].
      intros _. rewrite Hout, Hp0. reflexivity.
    + intros p Hp Hnz. rewrite Hout, Hp0 in Hp. congruence.
  - pose proof Hq as Hblk. unfold call_verdict in Hblk.
    apply verdict_qualified_block in Hblk. destruct Hblk as [Hnz Hml].
    fold (call_block os st (bestBlock (search os st allocSize).1)) in Hnz.
    split.
    + split.
      * intros E. rewrite Hout, Hp in E. congruence.
      * intros Hnone. exfalso. exact (Hnone _ g Hat Hq).
    + intros p Hpo _. rewrite Hout in Hpo. injection Hpo as <-.
      exists (bestBlock (search os st allocSize).1), g.
      split; [exact Hat|]. split; [exact Hq|]. split; [exact Hp|].
      destruct (search_spec os st allocSize Htable Hopen) as (_ & _ & Hev).
      rewrite Htr, Hev, Hp. apply in_or_app. left. right.
      apply in_flat_map.
      exists (bestBlock (search os st allocSize).1). split.
      * apply list_elem_of_In, elem_of_seqZ.
        apply (call_attempted_iff os st allocSize Htable _ Hopen) in Hat.
        lia.
      * apply trial_events_mlock; assumption.
Qed.

Lemma returns_null_iff_none_qualifies_witness :
  outcome (allocate_phys_mem env_first_call fresh_statics 10) = Return 0 <->
  forall t g, call_attempted env_first_call fresh_statics 10 t = true ->
    call_verdict env_first_call fresh_statics 10 t <> Qualified g.
Proof.
  apply (returns_null_iff_none_qualifies env_first_call fresh_statics 10).
  - vm_compute. reflexivity.
  - reflexivity.
Defined.

(** ** The static variables across calls *)

Lemma search_table_length (os : Env) (st : Statics) (allocSize : Z) :
  table_ok os st ->
  length (table (search os st allocSize).1) = Z.to_nat MAX_ATTEMPT.
Proof.
  intros Htable.
  pose proof (entry_table_length os st Htable) as Hlen.
  destruct (fopen_pagemap os) eqn:Hopen.
  - destruct (search_spec os st allocSize Htable Hopen)
      as ((_ & _ & Hl & _) & _).
    rewrite Hl. lia.
  - unfold search. rewrite Hopen. cbn [fst table].
    fold (entry_table os st). lia.
Qed.

(** X11.  The statics are set once: after a call with a non-zero page size
    [pageSize] and [cacheFriendlyFactor] are those of the lazy
    initialisation, the table still has MAX_ATTEMPT slots, and a later call
    neither reads the page size again nor allocates a new table, whatever
    the system then answers; a call on statics that are already set leaves
    them as they are. *)
Theorem statics_set_once (os : Env) (st : Statics) (allocSize : Z) :
  table_ok os st ->
  pageSize (lazy_init os st) <> 0 ->
  let st' := statics (allocate_phys_mem os st allocSize) in
  pageSize st' = pageSize (lazy_init os st) /\
  cacheFriendlyFactor st' = cacheFriendlyFactor (lazy_init os st) /\
  (pageSize st = 0 ->
   pageSize st' = wrap32 (sysconf_PAGESIZE os) /\
   cacheFriendlyFactor st' = cacheFriendlyFactor_init (pageSize st')) /\
  (pageSize st <> 0 ->
   pageSize st' = pageSize st /\
   cacheFriendlyFactor st' = cacheFriendlyFactor st) /\
  (forall os', lazy_init os' st' = st' /\ table_ok os' st').
Proof.
  intros Htable Hps st'.
  assert (Hst : pageSize st' = pageSize (lazy_init os st) /\
                cacheFriendlyFactor st'
                = cacheFriendlyFactor (lazy_init os st) /\
                blockArray st' = table (search os st allocSize).1).
  { subst st'. unfold allocate_phys_mem.
    destruct (fopen_pagemap os && fclose_pagemap os); simpl; auto. }
  destruct Hst as (Hp & Hc & Hb).
  split; [exact Hp|]. split; [exact Hc|]. split; [|split].
  - intros H0. rewrite Hp, Hc. unfold lazy_init.
    rewrite H0. cbn [Z.eqb pageSize cacheFriendlyFactor]. auto.
  - intros Hn. rewrite Hp, Hc. unfold lazy_init.
    replace (pageSize st =? 0) with false
      by (symmetry; apply Z.eqb_neq; exact Hn).
    auto.
  - intros os'.
    assert (Hid : lazy_init os' st' = st').
    { unfold lazy_init.
      replace (pageSize st' =? 0) with false
        by (symmetry; apply Z.eqb_neq; congruence).
      reflexivity. }
    split; [exact Hid|].
    unfold table_ok. rewrite Hid, Hb.
    apply search_table_length. exact Htable.
Qed.

Lemma statics_set_once_witness :
  lazy_init env_second_call
    (statics (allocate_phys_mem env_first_call fresh_statics 10))
  = statics (allocate_phys_mem env_first_call fresh_statics 10) /\
  table_ok env_second_call
    (statics (allocate_phys_mem env_first_call fresh_statics 10)).
Proof.
  apply (statics_set_once env_first_call fresh_statics 10).
  - vm_compute. reflexivity.
  - vm_compute. discriminate.
Defined.

Lemma trial_body_table (os : Env) (pgSize cff allocSize : Z) (s : Search) :
  let s' := (trial_body os pgSize cff allocSize s).1.2 in
  table s' = table (after_memalign os s) /\ trial s' = trial s.
Proof.
  unfold trial_body, after_memalign.
  set (s1 := match posix_memalign os (trial s) with
             | Some p => with_table s (store (table s) (trial s) p)
             | None => s
             end).
  assert (Ht : trial s1 = trial s)
    by (subst s1; destruct (posix_memalign os (trial s)); reflexivity).
  destruct (_ =? 0); [auto|].
  destruct (mlock os (trial s)); [auto|].
  destruct (walk_pages _ _ _ _ _ _).1 as [p g|]; [|auto].
  destruct (p =? _); [|auto].
  destruct (_ || _); [|auto].
  destruct (g =? 0); auto.
Qed.

(** The loop writes no slot at or beyond its bound, and none beyond the
    trial it stops at. *)
Lemma trial_loop_frame (os : Env) (pgSize cff allocSize : Z) (n : nat) :
  forall s i,
  0 <= trial s -> 0 <= i ->
  let s' := (trial_loop os pgSize cff allocSize n s).1 in
  trial s <= trial s' /\
  (trial s + Z.of_nat n <= i \/ trial s' < i ->
   slot (table s') i = slot (table s) i).
Proof.
  induction n as [|n IH]; intros s i Ht Hi; cbn [trial_loop].
  - cbn [fst]. split; [lia|reflexivity].
  - destruct (trial_body_table os pgSize cff allocSize s) as [Htb Htr].
    destruct (trial_body os pgSize cff allocSize s) as [[c s1] ev].
    cbn [fst snd] in Htb, Htr.
    assert (Hother : i <> trial s ->
              slot (table s1) i = slot (table s) i).
    { intros Hne. rewrite Htb.
      apply (after_memalign_other os (table s)); assumption. }
    destruct c; cbn [fst].
    + destruct (IH (next_trial s1) i) as [Hmono Hframe];
        [simpl; lia|exact Hi|].
      simpl in Hmono, Hframe. rewrite Htr in Hmono, Hframe.
      split; [lia|]. intros Hcond.
      rewrite Hframe by lia. apply Hother. lia.
    + rewrite Htr. split; [lia|]. intros Hcond. apply Hother. lia.
    + rewrite Htr. split; [lia|]. intros Hcond. apply Hother. lia.
Qed.

(** X12.  After a call, slot [t] of [blockArray] holds the block of trial
    [t] for every trial that was entered, and every slot past the last
    trial, slot 0 apart, still holds what it held before the call: the call
    never clears the entries left by earlier calls. *)
Theorem table_after_call (os : Env) (st : Statics) (allocSize : Z) :
  table_ok os st ->
  let run := allocate_phys_mem os st allocSize in
  let last := last_trial (call_numTrials os st allocSize)
                (search os st allocSize).1 in
  (forall t, call_attempted os st allocSize t = true ->
     0 <= t <= last /\
     slot (blockArray (statics run)) t = call_block os st t) /\
  (forall i, 1 <= i -> last < i ->
     slot (blockArray (statics run)) i
     = slot (blockArray (lazy_init os st)) i).
Proof.
  intros Htable run last.
  assert (Hb : blockArray (statics run) = table (search os st allocSize).1).
  { subst run. unfold allocate_phys_mem.
    destruct (fopen_pagemap os && fclose_pagemap os); reflexivity. }
  split.
  - intros t Hat. rewrite Hb.
    destruct (attempted_slot os st allocSize Htable t Hat) as [Hs Hr].
    split; [exact Hr|exact Hs].
  - intros i Hi Hlast. rewrite Hb.
    assert (Hentry : slot (entry_table os st) i
                     = slot (blockArray (lazy_init os st)) i).
    { unfold entry_table. apply slot_store_ne; lia. }
    rewrite <- Hentry. subst last. unfold search in *.
    destruct (fopen_pagemap os); cbn [fst] in *; [|reflexivity].
    pose proof (numTrials_of_range (pageSize (lazy_init os st))
                  (wrap32 (sysconf_AVPHYS_PAGES os))
                  (call_allocSize os st allocSize)) as HN.
    fold (call_numTrials os st allocSize) in HN.
    set (s0 := {| table := _; trial := 0; physBlock := 0;
                  bestBlock := -1; bestGapCount := -1 |}) in *.
    destruct (trial_loop_frame os (pageSize (lazy_init os st))
                (cacheFriendlyFactor (lazy_init os st))
                (call_allocSize os st allocSize)
                (Z.to_nat (call_numTrials os st allocSize)) s0 i)
      as [_ Hframe]; [simpl; lia|lia|].
    apply Hframe. unfold last_trial in Hlast. simpl (trial s0).
    destruct (Z.eqb_spec
                (trial (trial_loop os (pageSize (lazy_init os st))
                          (cacheFriendlyFactor (lazy_init os st))
                          (call_allocSize os st allocSize)
                          (Z.to_nat (call_numTrials os st allocSize)) s0).1)
                (call_numTrials os st allocSize)); lia.
Qed.

Lemma table_after_call_witness :
  slot (blockArray
          (statics
             (allocate_phys_mem env_second_call
                (statics (allocate_phys_mem env_first_call fresh_statics 10))
                10))) 2
  = 6291456.
Proof.
  destruct (table_after_call env_second_call
              (statics (allocate_phys_mem env_first_call fresh_statics 10)) 10)
    as [_ Hkeep].
  - vm_compute. reflexivity.
  - rewrite (Hkeep 2).
    + vm_compute. reflexivity.
    + lia.
    + vm_compute. reflexivity.
Defined.

(** ** The pagemap stream *)

Lemma trial_events_no_stream (os : Env) (pgSize cff allocSize : Z)
    (tbl0 : list Z) (l : list Z) :
  existsb is_fopen (flat_map (trial_events os pgSize cff allocSize tbl0) l)
  = false.
Proof.
  induction l as [|t l IH]; [reflexivity|].
  cbn [flat_map]. rewrite existsb_app, IH, orb_false_r.
  unfold trial_events. cbn [existsb is_fopen orb].
  destruct (_ =? 0); [reflexivity|]. cbn [existsb is_fopen orb].
  destruct (mlock os t); [reflexivity|]. cbn [existsb is_fopen orb].
  match goal with
  | |- context [map (EvFread t) ?reads] =>
    induction reads as [|p w IHw]; [reflexivity|exact IHw]
  end.
Qed.

Lemma cleanup_no_stream (allocSize : Z) (tbl : list Z) (best : Z) (n : nat) :
  forall unwind,
  existsb is_fopen (cleanup allocSize tbl best n unwind) = false /\
  existsb is_fclose (cleanup allocSize tbl best n unwind) = false.
Proof.
  induction n as [|n IH]; intros unwind; [split; reflexivity|].
  cbn [cleanup].
  destruct (unwind =? best); [apply IH|].
  destruct (slot tbl unwind =? 0); [apply IH|].
  cbn [app existsb is_fopen is_fclose orb]. apply IH.
Qed.

(** X13.  Every call opens the pagemap stream exactly once, as its first
    action.  When the open fails nothing is closed.  When it succeeds the
    stream is closed exactly once: every allocation, pin and read of the
    call comes before the fclose, and only munlock, free or the process
    exit come after it. *)
Theorem pagemap_closed_once (os : Env) (st : Statics) (allocSize : Z) :
  table_ok os st ->
  exists rest,
    trace (allocate_phys_mem os st allocSize)
    = EvFopen (fopen_pagemap os) :: rest /\
    existsb is_fopen rest = false /\
    (fopen_pagemap os = false -> rest = []) /\
    (fopen_pagemap os = true ->
     exists pre post,
       rest = pre ++ EvFclose (fclose_pagemap os) :: post /\
       existsb is_teardown pre = false /\
       existsb is_fclose post = false /\
       forallb is_teardown post = true).
Proof.
  intros Htable.
  destruct (fopen_pagemap os) eqn:Hopen.
  - destruct (search_spec os st allocSize Htable Hopen) as (_ & _ & Hev).
    cbv zeta in Hev.
    set (F := flat_map (call_events os st allocSize) _) in Hev.
    assert (HF1 : existsb is_fopen F = false)
      by apply trial_events_no_stream.
    assert (HF2 : existsb is_teardown F = false)
      by apply flat_map_no_teardown.
    destruct (fclose_pagemap os) eqn:Hclose.
    + destruct (allocate_exits os st allocSize) as [_ Htr];
        [rewrite Hopen, Hclose; reflexivity|].
      rewrite Htr, Hev. exists (F ++ [EvFclose true; EvExit (-1)]).
      split; [reflexivity|]. split.
      { rewrite existsb_app, HF1. reflexivity. }
      split; [discriminate|]. intros _.
      exists F, [EvExit (-1)]. repeat split; auto.
    + destruct (allocate_returns os st allocSize) as [_ Htr];
        [rewrite Hopen, Hclose; reflexivity|].
      rewrite Hopen in Htr. rewrite Htr, Hev.
      set (C := cleanup _ _ _ _ _).
      destruct (cleanup_no_stream (call_allocSize os st allocSize)
                  (table (search os st allocSize).1)
                  (bestBlock (search os st allocSize).1)
                  (Z.to_nat
                     (last_trial (call_numTrials os st allocSize)
                        (search os st allocSize).1 + 1))
                  (last_trial (call_numTrials os st allocSize)
                     (search os st allocSize).1)) as [HC1 HC2].
      fold C in HC1, HC2.
      exists (F ++ [EvFclose false] ++ C).
      split; [reflexivity|]. split.
      { rewrite !existsb_app, HF1, HC1. reflexivity. }
      split; [discriminate|]. intros _.
      exists F, C. repeat split; auto.
      apply cleanup_teardown.
  - destruct (allocate_no_pagemap os st allocSize Hopen) as [_ Htr].
    exists []. rewrite Htr. repeat split; auto. discriminate.
Qed.

Lemma pagemap_closed_once_witness :
  exists rest,
    trace (allocate_phys_mem env_first_call fresh_statics 10)
    = EvFopen (fopen_pagemap env_first_call) :: rest /\
    existsb is_fopen rest = false /\
    (fopen_pagemap env_first_call = false -> rest = []) /\
    (fopen_pagemap env_first_call = true ->
     exists pre post,
       rest = pre ++ EvFclose (fclose_pagemap env_first_call) :: post /\
       existsb is_teardown pre = false /\
       existsb is_fclose post = false /\
       forallb is_teardown post = true).
Proof.
  apply (pagemap_closed_once env_first_call fresh_statics 10).
  vm_compute. reflexivity.
Defined.

(** ** Giving the block back *)





(** ** The driver *)




(** ** The whole trace of a call *)

Lemma cleanup_flat_map (len : Z) (tbl : list Z) (best : Z) (n : nat) :
  forall unwind,
  Z.of_nat n = unwind + 1 ->
  cleanup len tbl best n unwind
  = flat_map (release_unless len best (slot tbl)) (rev (seqZ 0 (unwind + 1))).
Proof.
  induction n as [|n IH]; intros unwind Hn.
  - replace (unwind + 1) with 0 by lia. reflexivity.
  - cbn [cleanup]. rewrite (IH (unwind - 1)) by lia.
    replace (unwind - 1 + 1) with unwind by lia.
    rewrite (seqZ_app 0 unwind 1) by lia.
    rewrite (seqZ_cons (0 + unwind) 1) by lia.
    rewrite (seqZ_nil (Z.succ (0 + unwind)) (Z.pred 1)) by lia.
    rewrite rev_app_distr. cbn [rev app flat_map].
    f_equal. unfold release_unless, release.
    change (0 + unwind) with unwind.
    destruct (unwind =? best), (slot tbl unwind =? 0); reflexivity.
Qed.

Lemma flat_map_ext_In {A B : Type} (f g : A -> list B) (l : list A) :
  (forall x, In x l -> f x = g x) -> flat_map f l = flat_map g l.
Proof.
  induction l as [|a l IH]; intros H; [reflexivity|].
  cbn [flat_map]. rewrite (H a) by (left; reflexivity).
  rewrite IH; [reflexivity|]. intros x Hx. apply H. right. exact Hx.
Qed.

(** X16.  The whole trace of a call that returns after a successful open:
    fopen, then the calls of the trials 0 .. L-1 in order, then the fclose,
    then the cleanup, which walks the same trials in reverse order and, for
    each one other than the candidate whose block is non-null, unpins the
    block and frees it at once. *)
Theorem call_trace_shape (os : Env) (st : Statics) (allocSize : Z) :
  table_ok os st ->
  fopen_pagemap os = true ->
  fclose_pagemap os = false ->
  let s := (search os st allocSize).1 in
  let L := last_trial (call_numTrials os st allocSize) s + 1 in
  0 <= L <= call_numTrials os st allocSize /\
  trace (allocate_phys_mem os st allocSize)
  = EvFopen true
    :: flat_map (call_events os st allocSize) (seqZ 0 L)
    ++ EvFclose false
    :: flat_map (release_unless (call_allocSize os st allocSize)
                   (bestBlock s) (call_block os st))
         (rev (seqZ 0 L)).
Proof.
  intros Htable Hopen Hclose s L.
  destruct (search_spec os st allocSize Htable Hopen) as (_ & HL & Hev).
  cbv zeta in HL, Hev. fold s in HL, Hev. fold L in HL, Hev.
  split; [exact HL|].
  destruct (allocate_returns os st allocSize) as [_ Htr];
    [rewrite Hopen, Hclose; reflexivity|].
  cbv zeta in Htr. fold s in Htr. rewrite Hopen in Htr.
  rewrite Htr, Hev. cbn [app]. f_equal. f_equal. f_equal.
  rewrite cleanup_flat_map by (unfold L in HL; lia).
  fold L. apply flat_map_ext_In. intros i Hi.
  apply in_rev in Hi. apply list_elem_of_In, elem_of_seqZ in Hi.
  assert (Hat : call_attempted os st allocSize i = true).
  { apply (call_attempted_iff os st allocSize Htable i Hopen).
    fold s. unfold L in Hi. lia. }
  destruct (attempted_slot os st allocSize Htable i Hat) as [Hslot _].
  fold s in Hslot. unfold release_unless. rewrite Hslot. reflexivity.
Qed.

Lemma call_trace_shape_witness :
  trace (allocate_phys_mem env_perfect fresh_statics 10)
  = EvFopen true
    :: flat_map (call_events env_perfect fresh_statics 10) (seqZ 0 2)
    ++ EvFclose false
    :: flat_map (release_unless 1048576 1 (call_block env_perfect fresh_statics))
         (rev (seqZ 0 2)).
Proof.
  apply (call_trace_shape env_perfect fresh_statics 10).
  - vm_compute. reflexivity.
  - reflexivity.
  - reflexivity.
Defined.

(** ** The offset into the pagemap *)

(** X17.  A trial whose block is pinned seeks once, before its reads, to
    the 32-bit truncation of (block / pageSize) * 8, which is
    8 * ((block / pageSize) mod 2^29).  This is the offset of the block's
    first pagemap entry exactly when block < 2^29 * pageSize; for a block
    at or beyond that address it is the offset of another page's entry. *)
Theorem pagemap_offset_truncated (os : Env) (st : Statics)
    (allocSize t : Z) :
  let ps := pageSize (lazy_init os st) in
  let b := call_block os st t in
  0 < ps -> 0 < b -> mlock os t = false ->
  (exists reads,
     call_events os st allocSize t
     = EvMemalign t (posix_memalign os t)
       :: EvMlock b (call_allocSize os st allocSize) false
       :: EvFseek (8 * ((b / ps) mod 2 ^ 29))
       :: map (EvFread t) reads) /\
  (8 * ((b / ps) mod 2 ^ 29) = 8 * (b / ps) <-> b < 2 ^ 29 * ps).
Proof.
  intros ps b Hps Hb Hm.
  assert (Hq : 0 <= b / ps) by (apply Z.div_pos; lia).
  split.
  - unfold call_events, trial_events. fold (call_block os st t). fold b ps.
    replace (b =? 0) with false by (symmetry; apply Z.eqb_neq; lia).
    rewrite Hm. eexists. f_equal. f_equal. f_equal. f_equal.
    unfold wrap32. change (2 ^ 32) with (2 ^ 29 * 8).
    rewrite Zmult_mod_distr_r. lia.
  - split.
    + intros E.
      assert (Hs : (b / ps) mod 2 ^ 29 = b / ps) by lia.
      apply Z.mod_small_iff in Hs; [|lia].
      assert (Hlt : b / ps < 2 ^ 29) by lia.
      destruct (Z_lt_le_dec b (2 ^ 29 * ps)) as [|Hge]; [assumption|].
      exfalso.
      assert (2 ^ 29 <= b / ps)
        by (apply Z.div_le_lower_bound; lia).
      lia.
    + intros Hlt.
      assert (b / ps < 2 ^ 29)
        by (apply Z.div_lt_upper_bound; lia).
      rewrite Z.mod_small by lia. reflexivity.
Qed.

Lemma pagemap_offset_truncated_witness :
  In (EvFseek 2147483648) (call_events env_high_address fresh_statics 10 0) /\
  8 * (call_block env_high_address fresh_statics 0 / 4096) = 272730423296.
Proof.
  destruct (pagemap_offset_truncated env_high_address fresh_statics 10 0)
    as [(reads & E) _].
  - reflexivity.
  - reflexivity.
  - reflexivity.
  - split; [|reflexivity].
    rewrite E. right. right. left. reflexivity.
Defined.
